(** * Compliance-report pipeline of app.py: text extraction, font
    resolution and report assembly, as a shallow embedding.

    Python values are modelled as follows.
  - [str] is a list of Unicode code points ([N]); [len], slicing,
    [str.strip], [str.join], [str.replace] and [str.split] act on code
    points, as in Python 3.
  - [bytes] is a list of byte values.
  - An exception that leaves a function is the [Raise] case of [result].
  - Calls into PyPDF2, reportlab and the filesystem are parameters of
    the sections that use them. *)

From Stdlib Require Import List ZArith NArith Lia Bool String Ascii.
From stdpp Require Import base decidable countable gmap.
Import ListNotations.

Set Default Proof Using "Type".

Local Open Scope list_scope.
Local Open Scope Z_scope.

(** ** Python strings *)

Module PyStr.

Definition char := N.
Definition str := list char.
Definition bytes := list N.

(** A string literal of the source that only has ASCII characters. *)
Definition lit (s : string) : str :=
  List.map N_of_ascii (list_ascii_of_string s).

Definition NL : char := 10%N.

(** [bool(s)] for a string: the empty string is falsy. *)
Definition truthy (s : str) : bool :=
  match s with
  | [] => false
  | _ :: _ => true
  end.

(** [str.isspace] on one code point (CPython's [_PyUnicode_IsWhitespace]). *)
Definition isspace (c : char) : bool :=
  ((9 <=? c) && (c <=? 13) || (28 <=? c) && (c <=? 32)
   || (c =? 133) || (c =? 160) || (c =? 5760)
   || (8192 <=? c) && (c <=? 8202)
   || (c =? 8232) || (c =? 8233) || (c =? 8239) || (c =? 8287)
   || (c =? 12288))%N.

(** [s.lstrip()], [s.rstrip()] and [s.strip()] without argument. *)
Fixpoint lstrip (s : str) : str :=
  match s with
  | [] => []
  | c :: t => if isspace c then lstrip t else s
  end.

Fixpoint rstrip (s : str) : str :=
  match s with
  | [] => []
  | c :: t =>
      match rstrip t with
      | [] => if isspace c then [] else [c]
      | r => c :: r
      end
  end.

Definition strip (s : str) : str := rstrip (lstrip s).

(** [sep.join(xs)]. *)
Fixpoint join (sep : str) (xs : list str) : str :=
  match xs with
  | [] => []
  | [x] => x
  | x :: rest => x ++ sep ++ join sep rest
  end.

(** [s[:n]] for a Python int [n]: a negative bound counts from the end. *)
Definition slice_to (s : str) (n : Z) : str :=
  if n <? 0 then firstn (Z.to_nat (Z.of_nat (length s) + n)) s
  else firstn (Z.to_nat n) s.

(** [s.replace(old, new)] where [old] is a single character. *)
Definition replace (old : char) (new : str) (s : str) : str :=
  flat_map (fun c => if (c =? old)%N then new else [c]) s.

(** [s.split(d)] for a single-character delimiter: never the empty list. *)
Fixpoint split (d : char) (s : str) : list str :=
  match s with
  | [] => [[]]
  | c :: t =>
      if (c =? d)%N then [] :: split d t
      else match split d t with
           | [] => [[c]]
           | l :: ls => (c :: l) :: ls
           end
  end.

(** [s.startswith(p)]. *)
Fixpoint startswith (p s : str) : bool :=
  match p, s with
  | [], _ => true
  | _ :: _, [] => false
  | a :: p', b :: s' => (a =? b)%N && startswith p' s'
  end.

(** No whitespace at either end. *)
Definition trimmed (s : str) : bool :=
  match s with
  | [] => true
  | c :: _ => negb (isspace c) && negb (isspace (List.last s c))
  end.

Definition whitespace_only (s : str) : bool := forallb isspace s.

End PyStr.

Import PyStr.

(** ** Exceptions and results *)

(** The exceptions that reach the functions of app.py from its libraries:
    PyPDF2 cannot read a document ([MalformedDocument] in the
    specification), reportlab cannot load a font file ([InvalidFontAsset]),
    the analysis service fails. *)
Inductive exn : Type :=
| PdfReadError
| TTFError
| ServiceError.

Inductive result (A : Type) : Type :=
| Ok (a : A)
| Raise (e : exn).

Arguments Ok {A} a.
Arguments Raise {A} e.

(** ** extract_pdf_text *)

Module Extract.

(** What [page.extract_text()] gives for one page: [None] or a string. *)
Definition page := option str.

(** The two separators of the source: between the pages of a document
    and between documents. *)
Definition page_sep : str := [NL; NL].
Definition doc_sep : str := [NL; NL] ++ lit "---" ++ [NL; NL].

Definition default_max_chars : Z := 500000.

(** [page.extract_text()], or the empty string where that is falsy. *)
Definition page_text (p : page) : str :=
  match p with
  | Some (c :: t) => c :: t
  | _ => []
  end.

(** One turn of [for page in reader.pages]. *)
Definition add_page (chunks : list str) (p : page) : list str :=
  let text := page_text p in
  if truthy text then chunks ++ [strip text] else chunks.

Definition chunks_of (pages : list page) : list str :=
  fold_left add_page pages [].

(** The text before the final slice. *)
Definition full_text (pages : list page) : str :=
  strip (join page_sep (chunks_of pages)).

Section WithReader.

(** [PdfReader(BytesIO(pdf_bytes))] followed by the reading of every
    page: PyPDF2 either raises or gives the text of each page in
    order. *)
Variable PdfReader : bytes -> result (list page).

Definition extract_pdf_text (pdf_bytes : bytes) (max_chars : Z)
  : result str :=
  match PdfReader pdf_bytes with
  | Raise e => Raise e
  | Ok pages => Ok (slice_to (full_text pages) max_chars)
  end.

End WithReader.

(** The number of pages that yield a non-empty text. *)
Definition yielding (pages : list page) : nat :=
  length (List.filter truthy (List.map page_text pages)).

(** A text made of [m] non-empty blocks with one blank line between
    two neighbours. *)
Definition text_blocks (m : nat) (out : str) : Prop :=
  exists bs : list str,
    length bs = m /\ Forall (fun b => b <> []) bs /\ out = join page_sep bs.

End Extract.

(** ** The analysis run of main *)

Module App.
Import Extract.

(** [law_text = "\n\n---\n\n".join(law_texts).strip()]. *)
Definition aggregate (law_texts : list str) : str :=
  strip (join doc_sep law_texts).

(** The lines of a text that consist of three hyphens and nothing else. *)
Definition separator_lines (s : str) : nat :=
  length (List.filter (fun l => bool_decide (l = lit "---")) (split NL s)).

(** The separators in the strict sense: the lines of three hyphens that
    have an empty line before them and an empty line after them. *)
Fixpoint framed_in (lines : list str) : nat :=
  match lines with
  | [] => 0%nat
  | a :: rest =>
      match rest with
      | b :: c :: _ =>
          ((if bool_decide (a = []) && bool_decide (b = lit "---")
               && bool_decide (c = [])
            then 1 else 0) + framed_in rest)%nat
      | _ => 0%nat
      end
  end.

Definition separator_blocks (s : str) : nat := framed_in (split NL s).

(** What the page shows after the button was pressed. *)
Inductive shown : Type :=
  | AnalysisError (e : exn)
  | NoTextError
  | AnalysisResult (law_text : str) (analysis : str).

Section WithServices.

Variable PdfReader : bytes -> result (list page).

(** [model.generate_content([user_prompt, image]).text] for the prompt
    that carries [law_text], the uploaded image and the chosen model:
    the answer of the service, or its failure. *)
Variable generate_content : str -> result str.

Definition analyze_floorplan (law_text : str) : result str :=
  match generate_content law_text with
  | Raise e => Raise e
  | Ok text => Ok (strip text)
  end.

(** [for pdf in law_pdfs] inside the [try] block. The second component
    counts the calls of [extract_pdf_text]. *)
Fixpoint gather (law_pdfs : list bytes) (law_texts : list str)
  : result (list str) * nat :=
  match law_pdfs with
  | [] => (Ok law_texts, 0%nat)
  | pdf :: rest =>
      match extract_pdf_text PdfReader pdf default_max_chars with
      | Raise e => (Raise e, 1%nat)
      | Ok text =>
          let (r, n) :=
            gather rest (if truthy text then law_texts ++ [text]
                         else law_texts) in
          (r, S n)
      end
  end.

(** The body of [if analyze_clicked], with its [try ... except
    Exception] around the whole run. *)
Definition run_analysis (law_pdfs : list bytes) : shown * nat :=
  match gather law_pdfs [] with
  | (Raise e, n) => (AnalysisError e, n)
  | (Ok law_texts, n) =>
      let law_text := aggregate law_texts in
      if truthy law_text then
        match analyze_floorplan law_text with
        | Raise e => (AnalysisError e, n)
        | Ok r => (AnalysisResult law_text r, n)
        end
      else (NoTextError, n)
  end.

End WithServices.

(** A reader for the examples: the empty buffer cannot be read, any
    other buffer holds its pages as text with a form feed between two
    pages. *)
Definition pages_reader (b : bytes) : result (list page) :=
  match b with
  | [] => Raise PdfReadError
  | _ :: _ => Ok (List.map Some (split 12%N b))
  end.

(** A service for the examples: it answers with the text it was given. *)
Definition echo_service (law_text : str) : result str := Ok law_text.

End App.

(** ** resolve_korean_font *)

Module Fonts.

(** [Path(s)] and [p / name]. *)
Inductive Path : Type :=
  | PathOf (s : str)
  | PathDiv (p : Path) (name : str).

#[global] Instance Path_eq_dec : EqDecision Path.
Proof. solve_decision. Defined.

(** What a call finds on disk: whether a path exists, and whether
    [TTFont(name, str(path))] can load the file there. *)
Record filesystem : Type := {
    path_exists : Path -> bool;
    ttf_loads : Path -> bool
  }.

(** The state of the process: the names in reportlab's font registry,
    the calls of [registerFont] so far (latest first), and the paths
    whose existence was checked so far (latest first). *)
Record process : Type := {
    registered : gset str;
    registrations : list (str * str);
    existence_checks : list Path
  }.

Definition check_exists (p : Path) (w : process) : process :=
  {| registered := registered w;
     registrations := registrations w;
     existence_checks := p :: existence_checks w |}.

Definition registerFont (name file : str) (w : process) : process :=
  {| registered := {[ name ]} ∪ registered w;
     registrations := (name, file) :: registrations w;
     existence_checks := existence_checks w |}.

Definition NanumGothic : str := lit "NanumGothic".
Definition MalgunGothic : str := lit "MalgunGothic".

Section WithInstallation.

(** [Path(__file__).resolve().parent] and [str(path)]. *)
Variable base_dir : Path.
Variable path_str : Path -> str.

Definition candidates : list (str * Path) :=
  [ (NanumGothic, PathDiv (PathDiv base_dir (lit "fonts")) (lit "NanumGothic.ttf"));
    (NanumGothic, PathDiv base_dir (lit "NanumGothic.ttf"));
    (MalgunGothic, PathOf (lit "C:/Windows/Fonts/malgun.ttf"));
    (MalgunGothic, PathOf (lit "C:/Windows/Fonts/malgunbd.ttf")) ].

Section WithFilesystem.

Variable fs : filesystem.

(** [for name, path in candidates], with [names] the set taken from
    [getRegisteredFontNames()] before the loop. *)
Fixpoint resolve_from (names : gset str) (cands : list (str * Path))
    (w : process) : result (option str * option str) * process :=
  match cands with
  | [] => (Ok (None, None), w)
  | (name, path) :: rest =>
      let w1 := check_exists path w in
      if path_exists fs path then
        if decide (name ∈ names) then
          (Ok (Some name, Some (path_str path)), w1)
        else if ttf_loads fs path then
          (Ok (Some name, Some (path_str path)),
           registerFont name (path_str path) w1)
        else (Raise TTFError, w1)
      else resolve_from names rest w1
  end.

Definition resolve_korean_font (w : process)
  : result (option str * option str) * process :=
  resolve_from (registered w) candidates w.

End WithFilesystem.

(** One call of [resolve_korean_font] after another in one process,
    each with the disk as it is at that time. *)
Fixpoint resolve_many (disks : list filesystem) (w : process) : process :=
  match disks with
  | [] => w
  | fs :: rest => resolve_many rest (snd (resolve_korean_font fs w))
  end.

End WithInstallation.

(** A candidate whose path is not on disk. *)
Definition absent (fs : filesystem) (c : str * Path) : Prop :=
  path_exists fs (snd c) = false.

(** What holds of the process after every call: a name is registered at
    most once, only if it was not registered when the process started,
    and every registered name is in the registry. *)
Definition well_registered (names : gset str) (w : process) : Prop :=
  List.NoDup (List.map fst (registrations w))
  /\ names ⊆ registered w
  /\ (forall n, In n (List.map fst (registrations w)) ->
                (n ∉ names) /\ n ∈ registered w).

(** A process that has not called [resolve_korean_font] yet. *)
Definition fresh_process (names : gset str) : process :=
  {| registered := names; registrations := []; existence_checks := [] |}.

(** Values for the examples. *)
Definition app_dir : Path := PathOf (lit "/srv/app").

Fixpoint show_path (p : Path) : str :=
  match p with
  | PathOf s => s
  | PathDiv q name => show_path q ++ lit "/" ++ name
  end.

Definition disk_with (present loadable : list Path) : filesystem :=
  {| path_exists := fun p => bool_decide (p ∈ present);
     ttf_loads := fun p => bool_decide (p ∈ loadable) |}.

End Fonts.

(** ** build_pdf_bytes *)

Module Report.

(** The characters that the paragraph markup of reportlab gives a meaning. *)
Definition AMP : char := 38%N.
Definition LT : char := 60%N.
Definition GT : char := 62%N.
Definition QUOT : char := 34%N.
Definition APOS : char := 39%N.

(** [xml.sax.saxutils.escape(data)] with no extra entities: the ampersand
    is replaced first, then [>], then [<]. *)
Definition escape (data : str) : str :=
  replace LT (lit "&lt;") (replace GT (lit "&gt;") (replace AMP (lit "&amp;") data)).

(** [font_name or "Helvetica"]. *)
Definition Helvetica : str := lit "Helvetica".

Definition base_font_of (font_name : option str) : str :=
  match font_name with
  | Some (c :: t) => c :: t
  | _ => Helvetica
  end.

(** [ParagraphStyle(name, parent=styles[parent], fontName=..., leading=...)];
    [leading] is [None] where the source leaves the parent's value. *)
Record ParagraphStyle : Type := {
  style_name : str;
  parent : str;
  fontName : str;
  leading : option Z
}.

(** The flowables of the story; a [Spacer] has its height in millimetres. *)
Inductive Flowable : Type :=
| Paragraph (text : str) (style : ParagraphStyle)
| Spacer (width : Z) (height_mm : Z).

Inductive PageSize : Type := A4.

(** [SimpleDocTemplate(buffer, pagesize=A4, ...)], margins in millimetres. *)
Record SimpleDocTemplate : Type := {
  pagesize : PageSize;
  leftMargin : Z;
  rightMargin : Z;
  topMargin : Z;
  bottomMargin : Z
}.

Record document : Type := {
  template : SimpleDocTemplate;
  story : list Flowable
}.

(** The fixed Korean texts of the report, as code points: the title
    (geonchuk beopgyu geomto gyeolgwa), the label of the time of analysis,
    the label of the file name of the plan and the label of the body. *)
Definition title_text : str :=
  [44148; 52629; 32; 48277; 44508; 32; 44160; 53664; 32; 44208; 44284]%N.
Definition analyzed_at_label : str :=
  [48516; 49437; 32; 51068; 49884; 58; 32]%N.
Definition plan_filename_label : str :=
  [46020; 47732; 32; 54028; 51068; 47749; 58; 32]%N.
Definition body_label : str :=
  [65; 73; 32; 48516; 49437; 32; 45236; 50857; 58]%N.

Definition BR : str := lit "<br/>".

Definition title_style (base_font : str) : ParagraphStyle :=
  {| style_name := lit "TitleK"; parent := lit "Title";
     fontName := base_font; leading := None |}.

Definition body_style (base_font : str) : ParagraphStyle :=
  {| style_name := lit "BodyK"; parent := lit "BodyText";
     fontName := base_font; leading := Some 16 |}.

(** The body paragraph: [escape(analysis_text).replace("\n", "<br/>")]. *)
Definition body_markup (analysis_text : str) : str :=
  replace NL BR (escape analysis_text).

(** The template and the story that [build_pdf_bytes] hands to
    [doc.build]. *)
Definition report_document (analysis_text plan_filename analyzed_at : str)
    (font_name : option str) : document :=
  let base_font := base_font_of font_name in
  {| template := {| pagesize := A4; leftMargin := 20; rightMargin := 20;
                    topMargin := 20; bottomMargin := 20 |};
     story :=
       [ Paragraph title_text (title_style base_font);
         Spacer 1 6;
         Paragraph (analyzed_at_label ++ escape analyzed_at) (body_style base_font);
         Paragraph (plan_filename_label ++ escape plan_filename) (body_style base_font);
         Spacer 1 4;
         Paragraph body_label (body_style base_font);
         Spacer 1 2;
         Paragraph (body_markup analysis_text) (body_style base_font) ] |}.

Section WithEngine.

(** [doc.build(story)] followed by [buffer.getvalue()]: the rendering
    engine turns the template and the story into the bytes of the file. *)
Variable render : document -> bytes.

Definition build_pdf_bytes (analysis_text plan_filename analyzed_at : str)
    (font_name : option str) : bytes :=
  render (report_document analysis_text plan_filename analyzed_at font_name).

End WithEngine.

(** The markup texts of the paragraphs of a story, in order. *)
Definition paragraph_texts (fl : list Flowable) : list str :=
  flat_map (fun f => match f with
                     | Paragraph t _ => [t]
                     | Spacer _ _ => []
                     end) fl.

Definition paragraph_fonts (fl : list Flowable) : list str :=
  flat_map (fun f => match f with
                     | Paragraph _ st => [fontName st]
                     | Spacer _ _ => []
                     end) fl.

(** How the paragraph markup is read, as far as the escaped fields
    exercise it: a tag runs from [<] to the next [>], and the references
    [&amp;], [&lt;] and [&gt;] stand for one character each. Every other
    character, a quote included, is character data outside a tag. *)
Inductive token : Type :=
| Chr (c : char)
| Tag (body : str).

Inductive reader_state : Type :=
| InText (skip : nat)
| InTag (acc : str).

Fixpoint read_from (st : reader_state) (s : str) : list token :=
  match s with
  | [] => []
  | c :: rest =>
      match st with
      | InTag acc =>
          if (c =? GT)%N then Tag acc :: read_from (InText 0) rest
          else read_from (InTag (acc ++ [c])) rest
      | InText (S k) => read_from (InText k) rest
      | InText O =>
          if (c =? LT)%N then read_from (InTag []) rest
          else if (c =? AMP)%N then
            if startswith (lit "amp;") rest then Chr AMP :: read_from (InText 4) rest
            else if startswith (lit "lt;") rest then Chr LT :: read_from (InText 3) rest
            else if startswith (lit "gt;") rest then Chr GT :: read_from (InText 3) rest
            else Chr c :: read_from (InText 0) rest
          else Chr c :: read_from (InText 0) rest
      end
  end.

Definition read_markup (s : str) : list token := read_from (InText 0) s.

(** A text in which no character opens or closes a tag and every
    ampersand starts one of the three references. *)
Fixpoint inert (s : str) : bool :=
  match s with
  | [] => true
  | c :: rest =>
      negb (c =? LT)%N && negb (c =? GT)%N
      && (negb (c =? AMP)%N
          || startswith (lit "amp;") rest
          || startswith (lit "lt;") rest
          || startswith (lit "gt;") rest)
      && inert rest
  end.

(** What [escape] makes of one character of a field. *)
Definition escape_char (c : char) : str :=
  if (c =? AMP)%N then lit "&amp;"
  else if (c =? GT)%N then lit "&gt;"
  else if (c =? LT)%N then lit "&lt;"
  else [c].

(** What one character of the analysis text is read as in the body: a
    newline as a line break, any other character as itself. *)
Definition body_token (c : char) : token :=
  if (c =? NL)%N then Tag (lit "br/") else Chr c.

End Report.


(** ** More of Python's strings *)

Module PyMore.

(** [s.endswith(suffix)]. *)
Definition endswith (suffix s : str) : bool :=
  startswith (rev suffix) (rev s).

(** [s.rfind(d)] for a single character: the last index of [d], or -1. *)
Fixpoint rfind_from (d : char) (s : str) (i best : Z) : Z :=
  match s with
  | [] => best
  | c :: t => rfind_from d t (i + 1) (if (c =? d)%N then i else best)
  end.

Definition rfind (d : char) (s : str) : Z := rfind_from d s 0 (-1).

Definition DOT : char := 46%N.

(** [PurePath.stem] of a file name: the name without its last suffix;
    a name whose only dot is the first or the last character has no
    suffix. *)
Definition stem (name : str) : str :=
  let i := rfind DOT name in
  if (0 <? i) && (i <? Z.of_nat (length name) - 1)
  then firstn (Z.to_nat i) name
  else name.

End PyMore.

(** ** The choice of the model in the sidebar of main *)

Module Models.
Import PyMore.

(** [name.endswith("gemini-1.5-flash-latest") or name.endswith("gemini-pro")]. *)
Definition preferred (name : str) : bool :=
  endswith (lit "gemini-1.5-flash-latest") name
  || endswith (lit "gemini-pro") name.

(** [[model.name for model in models if model.name.startswith("models/")]],
    on the names of the models. *)
Definition model_names (names : list str) : list str :=
  List.filter (startswith (lit "models/")) names.

(** [for idx, name in enumerate(model_names)] with its [break], started
    at index [idx]; 0 is the value of [default_index] before the loop. *)
Fixpoint default_index_from (idx : nat) (names : list str) : nat :=
  match names with
  | [] => 0%nat
  | name :: rest =>
      if preferred name then idx else default_index_from (S idx) rest
  end.

Definition default_index (names : list str) : nat :=
  default_index_from 0 names.

(** The options and the index given to [st.selectbox]; [None] where the
    list is empty and no box is shown. *)
Definition selectbox_args (names : list str) : option (list str * nat) :=
  match model_names names with
  | [] => None
  | n :: ns => Some (n :: ns, default_index (n :: ns))
  end.

End Models.

(** ** The session state and the download of main *)

Module Session.
Import Extract App Fonts Report.

Definition KEY_RESULT : str := lit "analysis_result".
Definition KEY_TIME : str := lit "analysis_time".
Definition KEY_FILE : str := lit "analysis_file".

(** One press of the button: the documents uploaded, the value of
    [datetime.now().strftime(...)] and [uploaded.name]. *)
Record click : Type := {
  law_pdfs : list bytes;
  now : str;
  uploaded_name : str
}.

Section WithServices.

Variable PdfReader : bytes -> result (list page).
Variable generate_content : str -> result str.

(** [if analyze_clicked]: the three entries are written after the
    analysis has returned; an error leaves [st.session_state] alone. *)
Definition analyze_clicked (c : click) (st : gmap str str) : gmap str str :=
  match fst (run_analysis PdfReader generate_content (law_pdfs c)) with
  | AnalysisResult _ r =>
      <[KEY_FILE := uploaded_name c]>
        (<[KEY_TIME := now c]> (<[KEY_RESULT := r]> st))
  | AnalysisError _ => st
  | NoTextError => st
  end.

(** The runs of the script in which the button was pressed, in order. *)
Fixpoint clicks (cs : list click) (st : gmap str str) : gmap str str :=
  match cs with
  | [] => st
  | c :: rest => clicks rest (analyze_clicked c st)
  end.

Variable base_dir : Path.
Variable path_str : Path -> str.

(** [if "analysis_result" in st.session_state]: the font is resolved
    and the document is built from the entries of the session; [None]
    where there is no result to show. An error of
    [resolve_korean_font] is not caught. *)
Definition download (fs : filesystem) (w : process) (st : gmap str str)
  : option (result document) * process :=
  match st !! KEY_RESULT with
  | None => (None, w)
  | Some analysis_text =>
      match resolve_korean_font base_dir path_str fs w with
      | (Raise e, w') => (Some (Raise e), w')
      | (Ok (font_name, _), w') =>
          (Some (Ok (report_document analysis_text
                       (default (lit "unknown.png") (st !! KEY_FILE))
                       (default (lit "-") (st !! KEY_TIME))
                       font_name)), w')
      end
  end.

(** One run of the script with an image uploaded: the button was
    pressed or not. Where no text could be extracted, [main] returns
    before it comes to the download; after an error it goes on. *)
Definition run_script (pressed : option click) (fs : filesystem)
    (w : process) (st : gmap str str)
  : gmap str str * (option (result document) * process) :=
  match pressed with
  | None => (st, download fs w st)
  | Some c =>
      match fst (run_analysis PdfReader generate_content (law_pdfs c)) with
      | NoTextError => (st, (None, w))
      | _ => (analyze_clicked c st, download fs w (analyze_clicked c st))
      end
  end.

End WithServices.

(** The three entries are there together or not at all. *)
Definition complete (st : gmap str str) : Prop :=
  is_Some (st !! KEY_RESULT) ->
  is_Some (st !! KEY_TIME) /\ is_Some (st !! KEY_FILE).

End Session.

(** ** show_str_pair.py *)

Module StrPair.
Import Fonts PyMore.

(** The directories of the images and of the labels. *)
Definition SOURCE_DATA : str :=
  [48; 49; 46; 50896; 52380; 45936; 51060; 53552]%N.
Definition LABEL_DATA : str :=
  [48; 50; 46; 46972; 48296; 47553; 45936; 51060; 53552]%N.

(** How the search for the pair of files ends: with the image and its
    JSON file, or with one of the two [FileNotFoundError]s. *)
Inductive located : Type :=
| Pair (img_path json_path : Path)
| NoPngFound (img_dir : Path)
| NoJsonFound (json_path : Path).

Section WithInstallation.

Variable base_dir : Path.

Definition img_dir : Path := PathDiv (PathDiv base_dir SOURCE_DATA) (lit "STR").
Definition json_dir : Path := PathDiv (PathDiv base_dir LABEL_DATA) (lit "STR").

(** The start of [main]: [png_names] are the names of the files that
    [img_dir.glob("*.PNG")] yields, in its order, and [path_exists] is
    the disk. *)
Definition locate (png_names : list str) (path_exists : Path -> bool)
  : located :=
  match png_names with
  | [] => NoPngFound img_dir
  | name :: _ =>
      let json_path := PathDiv json_dir (stem name ++ lit ".json") in
      if path_exists json_path then Pair (PathDiv img_dir name) json_path
      else NoJsonFound json_path
  end.

End WithInstallation.

End StrPair.


(** * Properties *)

(** ** Facts on Python strings *)

Module PyStrFacts.

Lemma lstrip_head (s : str) (c : char) (t : str) :
  lstrip s = c :: t -> isspace c = false.
Proof.
  induction s as [|a s IH]; simpl; [discriminate|].
  destruct (isspace a) eqn:Ha; [exact IH|].
  intros E; injection E as <- _; exact Ha.
Qed.

Lemma lstrip_nonspace (c : char) (t : str) :
  isspace c = false -> lstrip (c :: t) = c :: t.
Proof. intros H; simpl; now rewrite H. Qed.

Lemma lstrip_whitespace_only (s : str) :
  whitespace_only s = true -> lstrip s = [].
Proof.
  induction s as [|a s IH]; simpl; [reflexivity|].
  intros H; apply andb_prop in H as [Ha Hs]; rewrite Ha; auto.
Qed.

Lemma lstrip_nil_whitespace_only (s : str) :
  lstrip s = [] -> whitespace_only s = true.
Proof.
  induction s as [|a s IH]; simpl; [reflexivity|].
  destruct (isspace a); [exact IH | discriminate].
Qed.

Lemma rstrip_nonspace (c : char) (t : str) :
  isspace c = false -> rstrip (c :: t) = c :: rstrip t.
Proof. intros H; simpl; rewrite H; now destruct (rstrip t). Qed.

Lemma rstrip_cons_keep (c : char) (t : str) :
  rstrip t <> [] -> rstrip (c :: t) = c :: rstrip t.
Proof. intros H; simpl; destruct (rstrip t); [contradiction | reflexivity]. Qed.

Lemma rstrip_app_keep (a b : str) :
  rstrip b <> [] -> rstrip (a ++ b) = a ++ rstrip b.
Proof.
  intros Hb; induction a as [|c a IH]; [reflexivity|].
  change ((c :: a) ++ b) with (c :: (a ++ b)).
  rewrite rstrip_cons_keep; rewrite IH; [reflexivity|].
  destruct a; simpl; [exact Hb | discriminate].
Qed.

Lemma rstrip_whitespace_only (s : str) :
  whitespace_only s = true -> rstrip s = [].
Proof.
  induction s as [|a s IH]; simpl; [reflexivity|].
  intros H; apply andb_prop in H as [Ha Hs].
  rewrite (IH Hs), Ha; reflexivity.
Qed.

Lemma rstrip_app_whitespace (a b : str) :
  whitespace_only b = true -> rstrip (a ++ b) = rstrip a.
Proof.
  intros Hb; induction a as [|c a IH]; simpl.
  - now apply rstrip_whitespace_only.
  - now rewrite IH.
Qed.

Lemma rstrip_snoc_nonspace (a : str) (c : char) :
  isspace c = false -> rstrip (a ++ [c]) = a ++ [c].
Proof.
  intros Hc; rewrite rstrip_app_keep; simpl; rewrite Hc; [reflexivity | discriminate].
Qed.

(** [rstrip] is [lstrip] seen from the other end. *)
Lemma rstrip_rev (s : str) : rstrip s = rev (lstrip (rev s)).
Proof.
  induction s as [|c s IH] using rev_ind; [reflexivity|].
  rewrite rev_app_distr; simpl.
  destruct (isspace c) eqn:Hc.
  - rewrite rstrip_app_whitespace; [exact IH | simpl; now rewrite Hc].
  - rewrite rstrip_snoc_nonspace by exact Hc.
    simpl; now rewrite rev_involutive.
Qed.

Lemma rstrip_last (s : str) (d : char) :
  rstrip s <> [] -> isspace (List.last (rstrip s) d) = false.
Proof.
  induction s as [|c s IH]; simpl; [contradiction|].
  destruct (rstrip s) as [|r rs] eqn:E.
  - destruct (isspace c) eqn:Hc; [contradiction | intros _; exact Hc].
  - intros _. change (List.last (c :: r :: rs) d) with (List.last (r :: rs) d).
    apply IH; discriminate.
Qed.

Lemma rstrip_head (s : str) (c : char) (t : str) :
  rstrip s = c :: t -> exists t', s = c :: t'.
Proof.
  destruct s as [|a s]; simpl; [discriminate|].
  destruct (rstrip s).
  - destruct (isspace a); [discriminate|].
    intros E; injection E as <- _; eauto.
  - intros E; injection E as <- _; eauto.
Qed.

Lemma rstrip_length (s : str) : (length (rstrip s) <= length s)%nat.
Proof.
  induction s as [|c s IH]; simpl; [lia|].
  destruct (rstrip s); [destruct (isspace c)|]; simpl in *; lia.
Qed.

Lemma last_cons_any (s : str) (c d e : char) :
  List.last (c :: s) d = List.last (c :: s) e.
Proof.
  revert c; induction s as [|a s IH]; intros c; [reflexivity|].
  change (List.last (c :: a :: s) d) with (List.last (a :: s) d).
  change (List.last (c :: a :: s) e) with (List.last (a :: s) e).
  apply IH.
Qed.

(** The result of [strip] has no whitespace at either end. *)
Lemma strip_trimmed (s : str) : trimmed (strip s) = true.
Proof.
  unfold strip, trimmed.
  destruct (rstrip (lstrip s)) as [|c t] eqn:E; [reflexivity|].
  destruct (rstrip_head _ _ _ E) as [t' Hl].
  rewrite (lstrip_head _ _ _ Hl); simpl negb at 1.
  rewrite <- E, rstrip_last; [reflexivity | rewrite E; discriminate].
Qed.

(** A text without whitespace at either end is left as it is. *)
Lemma strip_of_trimmed (s : str) : trimmed s = true -> strip s = s.
Proof.
  unfold trimmed, strip.
  destruct s as [|c t]; [reflexivity|].
  intros H; apply andb_prop in H as [Hc Hl].
  apply negb_true_iff in Hc, Hl.
  rewrite lstrip_nonspace by exact Hc.
  destruct (exists_last (l := c :: t)) as [u [z Hu]]; [discriminate|].
  rewrite Hu in *. rewrite last_last in Hl.
  now apply rstrip_snoc_nonspace.
Qed.

Lemma strip_whitespace_only (s : str) :
  whitespace_only s = true -> strip s = [].
Proof. intros H; unfold strip; now rewrite lstrip_whitespace_only. Qed.

Lemma strip_nil_whitespace_only (s : str) :
  strip s = [] -> whitespace_only s = true.
Proof.
  unfold strip; intros H.
  destruct (lstrip s) as [|c t] eqn:E.
  - now apply lstrip_nil_whitespace_only.
  - rewrite rstrip_nonspace in H by exact (lstrip_head _ _ _ E). discriminate.
Qed.

End PyStrFacts.

(** ** extract_pdf_text *)

Module ExtractFacts.
Import Extract PyStrFacts.

Lemma fold_add_page (pages : list page) (acc : list str) :
  fold_left add_page pages acc =
  acc ++ List.map strip (List.filter truthy (List.map page_text pages)).
Proof.
  revert acc; induction pages as [|p pages IH]; intros acc; simpl.
  - now rewrite app_nil_r.
  - rewrite IH; unfold add_page.
    destruct (truthy (page_text p)); simpl; [now rewrite <- app_assoc | reflexivity].
Qed.

(** The loop keeps, in page order, the stripped text of every page whose
    text is not empty. *)
Lemma chunks_of_filter (pages : list page) :
  chunks_of pages =
  List.map strip (List.filter truthy (List.map page_text pages)).
Proof. unfold chunks_of; now rewrite fold_add_page. Qed.

(** Pages without text leave nothing behind: the chunks are those of
    the document without these pages. *)
Lemma chunks_of_skipped (pages : list page) :
  chunks_of pages =
  chunks_of (List.filter (fun p => truthy (page_text p)) pages).
Proof.
  rewrite !chunks_of_filter; f_equal.
  induction pages as [|p pages IH]; [reflexivity|].
  cbn [List.map List.filter].
  destruct (truthy (page_text p)) eqn:T; cbn [List.map List.filter];
    rewrite ?T; now rewrite IH.
Qed.

Lemma chunks_length (pages : list page) :
  length (chunks_of pages) = yielding pages.
Proof. rewrite chunks_of_filter; unfold yielding; now rewrite length_map. Qed.

Lemma join_cons2 (sep x y : str) (rest : list str) :
  join sep (x :: y :: rest) = x ++ sep ++ join sep (y :: rest).
Proof. reflexivity. Qed.

Lemma join_nonempty (sep : str) (b : str) (bs : list str) :
  b <> [] -> join sep (b :: bs) <> [].
Proof.
  intros Hb; destruct bs; [exact Hb|].
  rewrite join_cons2; destruct b; [contradiction | discriminate].
Qed.

Lemma join_length_lower (bs : list str) :
  Forall (fun b => b <> []) bs ->
  (3 * length bs <= length (join page_sep bs) + 2)%nat.
Proof.
  induction bs as [|b bs IH]; intros H; [simpl; lia|].
  inversion H as [|? ? Hb Hbs]; subst.
  specialize (IH Hbs).
  destruct bs as [|b' bs].
  - destruct b; [contradiction | simpl; lia].
  - rewrite join_cons2, !length_app.
    destruct b; [contradiction|].
    change (length page_sep) with 2%nat. simpl length in *. lia.
Qed.

Lemma last_app_cons (a : str) (d : char) (b : str) (e : char) :
  List.last (a ++ d :: b) e = List.last (d :: b) e.
Proof.
  induction a as [|x a IH]; [reflexivity|].
  rewrite <- IH; simpl; destruct (a ++ d :: b) eqn:E; [|reflexivity].
  destruct a; discriminate.
Qed.

Lemma trimmed_app (a m b : str) :
  a <> [] -> b <> [] -> trimmed a = true -> trimmed b = true ->
  trimmed (a ++ m ++ b) = true.
Proof.
  intros Ha Hb Ta Tb.
  destruct a as [|c a]; [contradiction|].
  destruct b as [|d b]; [contradiction|].
  unfold trimmed in *; cbn [app].
  apply andb_prop in Ta as [Hc _]; apply andb_prop in Tb as [_ Hl].
  rewrite Hc; cbn [andb].
  rewrite app_assoc, app_comm_cons, last_app_cons.
  now rewrite (last_cons_any b d c d).
Qed.

Lemma join_trimmed (sep : str) (bs : list str) :
  Forall (fun b => b <> [] /\ trimmed b = true) bs ->
  trimmed (join sep bs) = true.
Proof.
  induction bs as [|b bs IH]; intros H; [reflexivity|].
  inversion H as [|? ? [Hb Tb] Hbs]; subst.
  destruct bs as [|b' bs]; [exact Tb|].
  rewrite join_cons2.
  apply trimmed_app; auto.
  inversion Hbs as [|? ? [Hb' _] _]; subst.
  now apply join_nonempty.
Qed.

Lemma whitespace_only_app (a b : str) :
  whitespace_only (a ++ b) = whitespace_only a && whitespace_only b.
Proof. unfold whitespace_only; apply forallb_app. Qed.

Lemma join_whitespace_only (bs : list str) :
  Forall (fun b => whitespace_only b = true) bs ->
  whitespace_only (join page_sep bs) = true.
Proof.
  induction bs as [|b bs IH]; intros H; [reflexivity|].
  inversion H as [|? ? Hb Hbs]; subst.
  destruct bs as [|b' bs]; [exact Hb|].
  rewrite join_cons2, !whitespace_only_app, Hb, (IH Hbs); reflexivity.
Qed.

Lemma slice_to_fits (s : str) (n : Z) :
  Z.of_nat (length s) <= n -> slice_to s n = s.
Proof.
  intros H; unfold slice_to.
  destruct (n <? 0) eqn:E; [apply Z.ltb_lt in E; lia|].
  apply firstn_all2; lia.
Qed.

Lemma slice_to_nonneg (s : str) (n : Z) :
  0 <= n -> slice_to s n = firstn (Z.to_nat n) s.
Proof.
  intros H; unfold slice_to.
  destruct (n <? 0) eqn:E; [apply Z.ltb_lt in E; lia | reflexivity].
Qed.

Lemma slice_to_nil (n : Z) : slice_to [] n = [].
Proof. unfold slice_to; destruct (n <? 0); apply firstn_nil. Qed.

(** Where the document can be read, the result is the slice of the
    stripped join of the stripped non-empty page texts. *)
Lemma extract_pdf_text_unfold (PdfReader : bytes -> result (list page))
    (pdf_bytes : bytes) (max_chars : Z) (pages : list page) :
  PdfReader pdf_bytes = Ok pages ->
  extract_pdf_text PdfReader pdf_bytes max_chars =
  Ok (slice_to
        (strip (join page_sep
                  (List.map strip (List.filter truthy (List.map page_text pages)))))
        max_chars).
Proof.
  intros H; unfold extract_pdf_text, full_text; now rewrite H, chunks_of_filter.
Qed.

Lemma visible_chunks (pages : list page) :
  Forall (fun p => whitespace_only (page_text p) = true -> page_text p = []) pages ->
  Forall (fun b => b <> [] /\ trimmed b = true) (chunks_of pages).
Proof.
  rewrite chunks_of_filter.
  induction pages as [|p pages IH]; intros H; simpl; [constructor|].
  inversion H as [|? ? Hp Hps]; subst.
  destruct (truthy (page_text p)) eqn:T; simpl; [|now apply IH].
  constructor; [|now apply IH].
  split; [|apply strip_trimmed].
  intros E; apply strip_nil_whitespace_only in E.
  rewrite (Hp E) in T; discriminate.
Qed.

(** The two documents of the worked example: one page, and an empty
    page before a page with text. *)
Example extract_rule_1 :
  extract_pdf_text (fun _ => Ok [Some (lit "Rule 1")]) [] default_max_chars
  = Ok (lit "Rule 1").
Proof. reflexivity. Qed.

Example extract_rule_2 :
  extract_pdf_text (fun _ => Ok [Some []; Some (lit "Rule 2")]) []
    default_max_chars
  = Ok (lit "Rule 2").
Proof. reflexivity. Qed.

(** A negative bound is outside the contract of the extractor; the slice
    then drops characters from the end. *)
Example extract_negative_bound :
  extract_pdf_text (fun _ => Ok [Some (lit "abc")]) [] (-1) = Ok (lit "ab").
Proof. reflexivity. Qed.

End ExtractFacts.

Module ExtractClaims.
Import Extract PyStrFacts ExtractFacts.

(** C1 (as amended). Where the document can be read, [extract_pdf_text]
    keeps the pages in order, drops every page whose text is [None] or
    empty, strips each remaining text and joins the stripped texts with
    one double newline; the result is the slice of the stripped join,
    and it is the same as for the document without the dropped pages.
    When moreover no page consists of whitespace only and the join fits
    into [max_chars], the result is exactly that join: as many non-empty,
    trimmed blocks as there are pages with a non-empty text, with one
    blank line between neighbours and nothing for a dropped page. *)
Theorem extract_joins_page_blocks (PdfReader : bytes -> result (list page))
    (pdf_bytes : bytes) (max_chars : Z) (pages : list page) :
  PdfReader pdf_bytes = Ok pages ->
  let blocks := List.map strip (List.filter truthy (List.map page_text pages)) in
  extract_pdf_text PdfReader pdf_bytes max_chars =
    Ok (slice_to (strip (join page_sep blocks)) max_chars)
  /\ full_text pages =
       full_text (List.filter (fun p => truthy (page_text p)) pages)
  /\ (Forall (fun p => whitespace_only (page_text p) = true -> page_text p = []) pages ->
      Z.of_nat (length (join page_sep blocks)) <= max_chars ->
      extract_pdf_text PdfReader pdf_bytes max_chars = Ok (join page_sep blocks)
      /\ length blocks = yielding pages
      /\ Forall (fun b => b <> [] /\ trimmed b = true) blocks
      /\ text_blocks (yielding pages) (join page_sep blocks)).
Proof.
  intros Hread blocks.
  split; [now apply extract_pdf_text_unfold|].
  split; [unfold full_text; now rewrite <- chunks_of_skipped|].
  intros Hvis Hfit.
  pose proof (visible_chunks pages Hvis) as Hch.
  pose proof (chunks_length pages) as Hlen.
  rewrite chunks_of_filter in Hch, Hlen; fold blocks in Hch, Hlen.
  repeat split; auto.
  - rewrite (extract_pdf_text_unfold _ _ _ _ Hread); fold blocks.
    rewrite (strip_of_trimmed _ (join_trimmed _ _ Hch)).
    now rewrite slice_to_fits.
  - exists blocks; repeat split; auto.
    eapply List.Forall_impl; [|exact Hch]. now intros b [Hb _].
Qed.

Lemma extract_joins_page_blocks_witness :
  let pages := [Some (lit "Rule 1 "); None; Some []; Some (lit "Rule 2")] in
  extract_pdf_text (fun _ => Ok pages) [] 20 =
    Ok (lit "Rule 1" ++ [NL; NL] ++ lit "Rule 2")
  /\ yielding pages = 2%nat.
Proof.
  intros pages.
  destruct (extract_joins_page_blocks (fun _ => Ok pages) [] 20 pages eq_refl)
    as (_ & _ & H).
  destruct H as (E & L & _).
  - repeat constructor; simpl; discriminate.
  - vm_compute; discriminate.
  - split; [exact E | now rewrite <- L].
Defined.

(** C1, counterexamples. A page of whitespace only counts as a page
    with text and leaves an empty chunk behind: the three pages "A", " "
    and "B" give two blocks with three blank lines between them, not
    three blocks. The final slice can cut blocks off as well: the two
    pages "A" and "B" with a bound of one character give one block. *)
Lemma extract_blocks_counterexample :
  (let pages := [Some (lit "A"); Some (lit " "); Some (lit "B")] in
   yielding pages = 3%nat
   /\ extract_pdf_text (fun _ => Ok pages) [] default_max_chars =
        Ok (lit "A" ++ [NL; NL; NL; NL] ++ lit "B")
   /\ ~ text_blocks (yielding pages) (lit "A" ++ [NL; NL; NL; NL] ++ lit "B"))
  /\ (let pages := [Some (lit "A"); Some (lit "B")] in
      yielding pages = 2%nat
      /\ extract_pdf_text (fun _ => Ok pages) [] 1 = Ok (lit "A")
      /\ ~ text_blocks (yielding pages) (lit "A")).
Proof.
  split; intros pages; (split; [reflexivity|]); (split; [reflexivity|]);
    intros (bs & Hlen & Hne & Hout);
    pose proof (join_length_lower bs Hne) as Hlow;
    rewrite <- Hout, Hlen in Hlow; vm_compute in Hlow; lia.
Qed.

(** C3. For a bound that is not negative, the result of
    [extract_pdf_text] is a prefix of the untruncated text and is no
    longer than the bound; where the untruncated text is longer than the
    bound, the result has exactly [max_chars] characters and is the
    prefix of that length. *)
Theorem extract_within_budget (PdfReader : bytes -> result (list page))
    (pdf_bytes : bytes) (max_chars : Z) (pages : list page) :
  0 <= max_chars ->
  PdfReader pdf_bytes = Ok pages ->
  exists out : str,
    extract_pdf_text PdfReader pdf_bytes max_chars = Ok out
    /\ Z.of_nat (length out) <= max_chars
    /\ (exists rest, full_text pages = out ++ rest)
    /\ (max_chars < Z.of_nat (length (full_text pages)) ->
        Z.of_nat (length out) = max_chars
        /\ out = firstn (Z.to_nat max_chars) (full_text pages)).
Proof.
  intros Hmax Hread.
  exists (firstn (Z.to_nat max_chars) (full_text pages)).
  unfold extract_pdf_text; rewrite Hread, slice_to_nonneg by exact Hmax.
  split; [reflexivity|].
  split; [rewrite length_firstn; lia|].
  split.
  - exists (skipn (Z.to_nat max_chars) (full_text pages)).
    now rewrite firstn_skipn.
  - intros Hlong; split; [rewrite length_firstn; lia | reflexivity].
Qed.

Lemma extract_within_budget_witness :
  exists out : str,
    extract_pdf_text (fun _ => Ok [Some (lit "Rule 1"); Some (lit "Rule 2")]) [] 9
      = Ok out
    /\ Z.of_nat (length out) <= 9
    /\ out = lit "Rule 1" ++ [NL; NL] ++ lit "R".
Proof.
  destruct (extract_within_budget
              (fun _ => Ok [Some (lit "Rule 1"); Some (lit "Rule 2")]) [] 9
              [Some (lit "Rule 1"); Some (lit "Rule 2")])
    as (out & E & Hle & _ & Hcut); [lia | reflexivity |].
  exists out; split; [exact E|]; split; [exact Hle|].
  destruct Hcut as [_ ->]; [vm_compute; reflexivity | reflexivity].
Defined.

(** C8. Where the document can be read and no page yields text (every
    page gives [None], the empty string or, beyond the claim, whitespace
    only), [extract_pdf_text] returns the empty string, whatever the
    bound. *)
Theorem extract_no_text_is_empty (PdfReader : bytes -> result (list page))
    (pdf_bytes : bytes) (max_chars : Z) (pages : list page) :
  PdfReader pdf_bytes = Ok pages ->
  Forall (fun p => whitespace_only (page_text p) = true) pages ->
  extract_pdf_text PdfReader pdf_bytes max_chars = Ok [].
Proof.
  intros Hread Hall.
  rewrite (extract_pdf_text_unfold _ _ _ _ Hread).
  rewrite strip_whitespace_only; [now rewrite slice_to_nil|].
  apply join_whitespace_only.
  clear Hread.
  induction Hall as [|p ps Hp _ IH]; simpl; [constructor|].
  destruct (truthy (page_text p)); simpl; [|exact IH].
  constructor; [|exact IH].
  now rewrite strip_whitespace_only.
Qed.

Lemma extract_no_text_is_empty_witness :
  extract_pdf_text (fun _ => Ok [None; Some []; None]) [7%N] default_max_chars
  = Ok [].
Proof.
  apply (extract_no_text_is_empty _ _ _ [None; Some []; None]);
    [reflexivity | repeat constructor].
Defined.

End ExtractClaims.

(** ** The analysis run of main *)

Module AppFacts.
Import Extract App PyStrFacts ExtractFacts.

Lemma split_nonempty (d : char) (s : str) : split d s <> [].
Proof.
  induction s as [|c s IH]; simpl; [discriminate|].
  destruct (c =? d)%N; [discriminate|].
  destruct (split d s); [contradiction | discriminate].
Qed.

(** Splitting at a delimiter that is known to be there. *)
Lemma split_app_delim (d : char) (a b : str) :
  split d (a ++ d :: b) = split d a ++ split d b.
Proof.
  induction a as [|c a IH]; simpl.
  - now rewrite N.eqb_refl.
  - destruct (c =? d)%N; [now rewrite IH|].
    rewrite IH.
    pose proof (split_nonempty d a) as Ha.
    destruct (split d a); [contradiction | reflexivity].
Qed.

Lemma separator_lines_app (a b : str) :
  separator_lines (a ++ NL :: b) = (separator_lines a + separator_lines b)%nat.
Proof.
  unfold separator_lines.
  now rewrite split_app_delim, List.filter_app, length_app.
Qed.

(** The separator of the caller adds exactly one line of three hyphens. *)
Lemma separator_lines_doc_sep (a b : str) :
  separator_lines (a ++ doc_sep ++ b) =
  (separator_lines a + 1 + separator_lines b)%nat.
Proof.
  change (a ++ doc_sep ++ b)
    with (a ++ NL :: ([] ++ NL :: (lit "---" ++ NL :: ([] ++ NL :: b)))).
  rewrite !separator_lines_app.
  change (separator_lines []) with 0%nat.
  change (separator_lines (lit "---")) with 1%nat.
  lia.
Qed.

(** The lines of two texts with the separator of the caller between
    them. *)
Lemma split_doc_sep (a b : str) :
  split NL (a ++ doc_sep ++ b) =
  split NL a ++ [] :: lit "---" :: [] :: split NL b.
Proof.
  change (a ++ doc_sep ++ b)
    with (a ++ NL :: ([] ++ NL :: (lit "---" ++ NL :: ([] ++ NL :: b)))).
  now rewrite !split_app_delim.
Qed.

(** A separator in the strict sense is a line of three hyphens. *)
Lemma framed_le_lines (lines : list str) :
  (framed_in lines <=
   length (List.filter (fun l => bool_decide (l = lit "---")) (tl lines)))%nat.
Proof.
  induction lines as [|a rest IH]; [reflexivity|].
  destruct rest as [|b [|c r]]; [cbn; lia | cbn; lia |].
  change (framed_in (a :: b :: c :: r))
    with ((if bool_decide (a = []) && bool_decide (b = lit "---")
              && bool_decide (c = [])
           then 1 else 0) + framed_in (b :: c :: r))%nat.
  cbn [tl] in *.
  remember (c :: r) as cr eqn:Ecr.
  remember (bool_decide (c = [])) as cb eqn:Ecb.
  clear Ecr Ecb. cbn [List.filter].
  destruct (bool_decide (b = lit "---")); cbn [length].
  - destruct (bool_decide (a = []) && true && cb); lia.
  - rewrite andb_false_r; cbn [andb]. lia.
Qed.

Lemma separator_blocks_le_lines (s : str) :
  (separator_blocks s <= separator_lines s)%nat.
Proof.
  unfold separator_blocks, separator_lines.
  pose proof (framed_le_lines (split NL s)) as H.
  destruct (split NL s) as [|l ls]; [exact H|].
  cbn [tl] in H. cbn [List.filter].
  destruct (bool_decide (l = lit "---")); cbn [length]; lia.
Qed.

(** The separator of the caller is one in the strict sense. *)
Lemma framed_in_doc_sep (before after : list str) :
  (1 <= framed_in (before ++ [] :: lit "---" :: [] :: after))%nat.
Proof.
  induction before as [|a before IH].
  - cbn [app].
    change (framed_in ([] :: lit "---" :: [] :: after))
      with (1 + framed_in (lit "---" :: [] :: after))%nat.
    lia.
  - cbn [app].
    destruct (before ++ [] :: lit "---" :: [] :: after) as [|b [|c r]] eqn:E.
    + destruct before; discriminate.
    + destruct before as [|x [|y before]]; discriminate.
    + change (framed_in (a :: b :: c :: r))
        with ((if bool_decide (a = []) && bool_decide (b = lit "---")
                  && bool_decide (c = [])
               then 1 else 0) + framed_in (b :: c :: r))%nat.
      lia.
Qed.

Lemma strip_between (c : char) (a sep b : str) :
  isspace c = false -> rstrip b <> [] ->
  strip ((c :: a) ++ sep ++ b) = (c :: a) ++ sep ++ rstrip b.
Proof.
  intros Hc Hb; unfold strip.
  change ((c :: a) ++ sep ++ b) with (c :: (a ++ sep ++ b)).
  rewrite lstrip_nonspace by exact Hc.
  rewrite app_assoc, app_comm_cons, rstrip_app_keep by exact Hb.
  now rewrite <- app_comm_cons, <- app_assoc.
Qed.

(** A result of [extract_pdf_text] that is not empty starts with a
    character that is not whitespace. *)
Lemma extract_head_visible (PdfReader : bytes -> result (list page))
    (pdf_bytes : bytes) (max_chars : Z) (c : char) (t : str) :
  0 <= max_chars ->
  extract_pdf_text PdfReader pdf_bytes max_chars = Ok (c :: t) ->
  isspace c = false.
Proof.
  intros Hmax; unfold extract_pdf_text.
  destruct (PdfReader pdf_bytes) as [pages|e]; [|discriminate].
  rewrite slice_to_nonneg by exact Hmax.
  intros E; injection E as E.
  pose proof (strip_trimmed (join page_sep (chunks_of pages))) as T.
  fold (full_text pages) in T.
  destruct (full_text pages) as [|c' s]; [now rewrite firstn_nil in E|].
  destruct (Z.to_nat max_chars); [discriminate|].
  simpl in E; injection E as -> _.
  unfold trimmed in T; apply andb_prop in T as [T _].
  now apply negb_true_iff in T.
Qed.

(** The loop of the caller keeps the non-empty results in upload order
    and calls [extract_pdf_text] once for each document. *)
Lemma gather_all_read (PdfReader : bytes -> result (list page))
    (law_pdfs : list bytes) (texts acc : list str) :
  Forall2 (fun pdf t => extract_pdf_text PdfReader pdf default_max_chars = Ok t)
          law_pdfs texts ->
  gather PdfReader law_pdfs acc =
  (Ok (acc ++ List.filter truthy texts), length law_pdfs).
Proof.
  intros H; revert acc; induction H as [|pdf t pdfs ts Hx _ IH]; intros acc; simpl.
  - now rewrite app_nil_r.
  - rewrite Hx, IH.
    destruct (truthy t); simpl; [now rewrite <- app_assoc | reflexivity].
Qed.

(** The loop stops at the first document that cannot be read. *)
Lemma gather_stops (PdfReader : bytes -> result (list page))
    (pre : list bytes) (bad : bytes) (post : list bytes) (e : exn)
    (acc : list str) :
  Forall (fun pdf => exists pages, PdfReader pdf = Ok pages) pre ->
  PdfReader bad = Raise e ->
  gather PdfReader (pre ++ bad :: post) acc = (Raise e, S (length pre)).
Proof.
  intros Hpre Hbad; revert acc.
  induction Hpre as [|pdf pre [pages Hp] _ IH]; intros acc; simpl.
  - unfold extract_pdf_text; now rewrite Hbad.
  - unfold extract_pdf_text at 1; rewrite Hp, IH; reflexivity.
Qed.

End AppFacts.

Module AppClaims.
Import Extract App PyStrFacts ExtractFacts AppFacts.

(** C7 (as amended). When every document can be read, the caller joins
    the non-empty results, in upload order, with a line of three hyphens
    between blank lines and strips the aggregate, which therefore has no
    whitespace at either end. For two documents with a non-empty result
    each, the aggregate is the first result, the separator and the second
    result without its trailing whitespace; a result that was not cut has
    none, a result cut at the bound can have some. The separator of the
    caller is in the aggregate as a line of three hyphens between two
    empty lines. The aggregate has one line of three hyphens more than
    the first result and the second result without its trailing
    whitespace have together; when these two have none, it has exactly
    one separator line, in the wide sense (a line of three hyphens) and
    in the strict sense (such a line between two empty lines). *)
Theorem aggregate_of_documents (PdfReader : bytes -> result (list page))
    (generate_content : str -> result str)
    (law_pdfs : list bytes) (texts : list str) :
  Forall2 (fun pdf t => extract_pdf_text PdfReader pdf default_max_chars = Ok t)
          law_pdfs texts ->
  gather PdfReader law_pdfs [] = (Ok (List.filter truthy texts), length law_pdfs)
  /\ run_analysis PdfReader generate_content law_pdfs =
       (match aggregate (List.filter truthy texts) with
        | [] => NoTextError
        | c :: t =>
            match generate_content (c :: t) with
            | Raise e => AnalysisError e
            | Ok r => AnalysisResult (c :: t) (strip r)
            end
        end, length law_pdfs)
  /\ trimmed (aggregate (List.filter truthy texts)) = true
  /\ (forall t1 t2 : str,
        texts = [t1; t2] -> t1 <> [] -> t2 <> [] ->
        aggregate (List.filter truthy texts) = t1 ++ doc_sep ++ rstrip t2
        /\ rstrip t2 <> []
        /\ (trimmed t2 = true -> rstrip t2 = t2)
        /\ split NL (aggregate (List.filter truthy texts)) =
             split NL t1 ++ [] :: lit "---" :: [] :: split NL (rstrip t2)
        /\ separator_lines (aggregate (List.filter truthy texts)) =
             (separator_lines t1 + 1 + separator_lines (rstrip t2))%nat
        /\ (1 <= separator_blocks (aggregate (List.filter truthy texts)))%nat
        /\ (separator_blocks (aggregate (List.filter truthy texts)) <=
            separator_lines (aggregate (List.filter truthy texts)))%nat
        /\ (separator_lines t1 = 0%nat -> separator_lines (rstrip t2) = 0%nat ->
            separator_lines (aggregate (List.filter truthy texts)) = 1%nat
            /\ separator_blocks (aggregate (List.filter truthy texts)) = 1%nat)).
Proof.
  intros Hall.
  pose proof (gather_all_read PdfReader law_pdfs texts [] Hall) as Hg.
  simpl app in Hg.
  split; [exact Hg|].
  split.
  { unfold run_analysis; rewrite Hg.
    destruct (aggregate (List.filter truthy texts)) as [|c t]; [reflexivity|].
    cbn [truthy]; unfold analyze_floorplan.
    now destruct (generate_content (c :: t)). }
  split; [apply strip_trimmed|].
  intros t1 t2 -> H1 H2.
  inversion Hall as [|? ? ? ? E1 Hrest]; subst.
  inversion Hrest as [|? ? ? ? E2 _]; subst.
  destruct t1 as [|c1 t1]; [contradiction|].
  destruct t2 as [|c2 t2]; [contradiction|].
  apply extract_head_visible in E1; [|unfold default_max_chars; lia].
  apply extract_head_visible in E2; [|unfold default_max_chars; lia].
  assert (Hr2 : rstrip (c2 :: t2) <> [])
    by (rewrite rstrip_nonspace by exact E2; discriminate).
  set (agg := aggregate _).
  assert (Hagg : agg = (c1 :: t1) ++ doc_sep ++ rstrip (c2 :: t2)).
  { subst agg; unfold aggregate; cbn [List.filter truthy join].
    apply strip_between; [exact E1 | exact Hr2]. }
  assert (Hlines : separator_lines agg =
                   (separator_lines (c1 :: t1) + 1
                    + separator_lines (rstrip (c2 :: t2)))%nat)
    by (rewrite Hagg; apply separator_lines_doc_sep).
  assert (Hlow : (1 <= separator_blocks agg)%nat).
  { rewrite Hagg; unfold separator_blocks; rewrite split_doc_sep.
    apply framed_in_doc_sep. }
  pose proof (separator_blocks_le_lines agg) as Hup.
  split; [exact Hagg|]. split; [exact Hr2|].
  split.
  { intros T2. pose proof (strip_of_trimmed _ T2) as S2.
    unfold strip in S2. now rewrite lstrip_nonspace in S2 by exact E2. }
  split; [rewrite Hagg; apply split_doc_sep|].
  split; [exact Hlines|]. split; [exact Hlow|]. split; [exact Hup|].
  intros Z1 Z2; split; lia.
Qed.

Lemma aggregate_of_documents_witness :
  aggregate [lit "Rule 1"; lit "Rule 2"] = lit "Rule 1" ++ doc_sep ++ lit "Rule 2"
  /\ separator_lines (aggregate [lit "Rule 1"; lit "Rule 2"]) = 1%nat
  /\ separator_blocks (aggregate [lit "Rule 1"; lit "Rule 2"]) = 1%nat.
Proof.
  destruct (aggregate_of_documents pages_reader echo_service
              [lit "Rule 1"; [12%N] ++ lit "Rule 2"]
              [lit "Rule 1"; lit "Rule 2"])
    as (_ & _ & _ & H).
  - repeat constructor.
  - destruct (H (lit "Rule 1") (lit "Rule 2") eq_refl)
      as (E & _ & _ & _ & _ & _ & _ & S1); [discriminate | discriminate |].
    destruct S1 as [S1 S2]; [reflexivity | reflexivity |].
    split; [exact E|]. split; [exact S1 | exact S2].
Defined.

(** C7, counterexample. A result that has a separator of its own, a
    line of three hyphens between two empty lines, gives an aggregate
    with two separator lines, in the wide and in the strict sense. *)
Lemma aggregate_separator_counterexample :
  let d1 := lit "a" ++ doc_sep ++ lit "b" in
  let d2 := lit "c" in
  let law_text := d1 ++ doc_sep ++ d2 in
  extract_pdf_text pages_reader d1 default_max_chars = Ok d1
  /\ extract_pdf_text pages_reader d2 default_max_chars = Ok d2
  /\ d1 <> [] /\ d2 <> []
  /\ run_analysis pages_reader echo_service [d1; d2] =
       (AnalysisResult law_text law_text, 2%nat)
  /\ trimmed law_text = true
  /\ separator_lines law_text = 2%nat
  /\ separator_blocks law_text = 2%nat
  /\ separator_lines law_text <> 1%nat
  /\ separator_blocks law_text <> 1%nat.
Proof.
  vm_compute; repeat split; discriminate.
Qed.

(** A result that was cut just after a line of three hyphens and a
    space has no line of three hyphens, but gets one when the aggregate
    is stripped: the count goes by the result without its trailing
    whitespace. *)
Example aggregate_strips_cut_result :
  let t1 := lit "a" in
  let t2 := lit "b" ++ [NL] ++ lit "--- " in
  separator_lines t1 = 0%nat
  /\ separator_lines t2 = 0%nat
  /\ separator_lines (rstrip t2) = 1%nat
  /\ aggregate [t1; t2] = t1 ++ doc_sep ++ rstrip t2
  /\ separator_lines (aggregate [t1; t2]) = 2%nat
  /\ separator_blocks (aggregate [t1; t2]) = 1%nat.
Proof. vm_compute; repeat split. Qed.

(** C6 (as amended). A document that cannot be read makes
    [extract_pdf_text] raise the error of the reader, whatever the bound;
    nothing in the extractor catches it. In the caller the error leaves
    the loop over the documents: the run ends with the error message,
    the documents after the unreadable one are never extracted, and the
    texts of the documents before it are not used. *)
Theorem unreadable_document_ends_run (PdfReader : bytes -> result (list page))
    (generate_content : str -> result str)
    (pre : list bytes) (bad : bytes) (post : list bytes) (e : exn) :
  PdfReader bad = Raise e ->
  Forall (fun pdf => exists pages, PdfReader pdf = Ok pages) pre ->
  (forall max_chars, extract_pdf_text PdfReader bad max_chars = Raise e)
  /\ run_analysis PdfReader generate_content (pre ++ bad :: post) =
       (AnalysisError e, S (length pre)).
Proof.
  intros Hbad Hpre; split.
  - intros max_chars; unfold extract_pdf_text; now rewrite Hbad.
  - unfold run_analysis; now rewrite (gather_stops _ _ _ _ e [] Hpre Hbad).
Qed.

Lemma unreadable_document_ends_run_witness :
  run_analysis pages_reader echo_service [lit "Rule 1"; []; lit "Rule 2"] =
  (AnalysisError PdfReadError, 2%nat).
Proof.
  apply (unreadable_document_ends_run pages_reader echo_service
           [lit "Rule 1"] [] [lit "Rule 2"] PdfReadError).
  - reflexivity.
  - repeat constructor. eexists; reflexivity.
Defined.

(** C6, counterexample. With an unreadable document between two
    readable ones the run does not go on as if that document had been
    left out: it shows the error, and the third document is not
    extracted. *)
Lemma unreadable_document_counterexample :
  let good := lit "Rule 1" ++ doc_sep ++ lit "Rule 2" in
  run_analysis pages_reader echo_service [lit "Rule 1"; []; lit "Rule 2"] =
    (AnalysisError PdfReadError, 2%nat)
  /\ run_analysis pages_reader echo_service [lit "Rule 1"; lit "Rule 2"] =
       (AnalysisResult good good, 2%nat)
  /\ fst (run_analysis pages_reader echo_service [lit "Rule 1"; []; lit "Rule 2"])
     <> fst (run_analysis pages_reader echo_service [lit "Rule 1"; lit "Rule 2"]).
Proof.
  vm_compute; repeat split; discriminate.
Qed.

End AppClaims.

(** ** resolve_korean_font *)

Module FontsFacts.
Import Fonts.

Section Resolve.

Variable base_dir : Path.
Variable path_str : Path -> str.
Variable fs : filesystem.

Let resolve_from := resolve_from path_str fs.
Let absent := absent fs.

(** No candidate on disk: every path is checked, nothing is registered,
    and the pair of [None]s is returned. *)
Lemma resolve_from_absent (names : gset str) (cands : list (str * Path))
    (w : process) :
  Forall absent cands ->
  let r := resolve_from names cands w in
  fst r = Ok (None, None)
  /\ registered (snd r) = registered w
  /\ registrations (snd r) = registrations w
  /\ existence_checks (snd r) = rev (List.map snd cands) ++ existence_checks w.
Proof.
  intros H; revert w; induction H as [|[name path] cands Hc _ IH]; intros w.
  - now cbn.
  - unfold absent in Hc; cbn in Hc. cbn; rewrite Hc.
    destruct (IH (check_exists path w)) as (E1 & E2 & E3 & E4).
    repeat split; auto.
    rewrite E4; cbn; now rewrite <- app_assoc.
Qed.

(** The first candidate on disk decides the call. *)
Lemma resolve_from_first (names : gset str)
    (pre : list (str * Path)) (name : str) (path : Path)
    (post : list (str * Path)) (w : process) :
  Forall absent pre ->
  path_exists fs path = true ->
  let r := resolve_from names (pre ++ (name, path) :: post) w in
  existence_checks (snd r) = path :: rev (List.map snd pre) ++ existence_checks w
  /\ fst r = (if decide (name ∈ names) then Ok (Some name, Some (path_str path))
              else if ttf_loads fs path then Ok (Some name, Some (path_str path))
              else Raise TTFError).
Proof.
  intros H Hex; revert w; induction H as [|[n p] pre Hc _ IH]; intros w.
  - cbn; rewrite Hex.
    destruct (decide (name ∈ names)); [now cbn|].
    destruct (ttf_loads fs path); now cbn.
  - unfold absent in Hc; cbn in Hc. cbn; rewrite Hc.
    destruct (IH (check_exists p w)) as (E1 & E2).
    split; [|exact E2].
    rewrite E1; cbn; now rewrite <- app_assoc.
Qed.

(** A call registers nothing, or one name that was not registered. *)
Lemma resolve_from_effect (names : gset str) (cands : list (str * Path))
    (w : process) :
  let w' := snd (resolve_from names cands w) in
  (registered w' = registered w /\ registrations w' = registrations w)
  \/ (exists name file,
        (name ∉ names)
        /\ registered w' = {[ name ]} ∪ registered w
        /\ registrations w' = (name, file) :: registrations w).
Proof.
  revert w; induction cands as [|[name path] cands IH]; intros w; cbn.
  - now left.
  - destruct (path_exists fs path); [|exact (IH (check_exists path w))].
    destruct (decide (name ∈ names)); [now left|].
    destruct (ttf_loads fs path); [|now left].
    right; exists name, (path_str path); now cbn.
Qed.

(** The shape of what a call gives. *)
Lemma resolve_from_shape (names : gset str) (cands : list (str * Path))
    (w : process) :
  match fst (resolve_from names cands w) with
  | Ok (None, None) => Forall absent cands
  | Ok (Some name, Some file) =>
      exists path, In (name, path) cands /\ file = path_str path
                   /\ path_exists fs path = true
                   /\ (name ∈ names \/ ttf_loads fs path = true)
  | Ok _ => False
  | Raise e =>
      e = TTFError
      /\ exists name path, In (name, path) cands /\ path_exists fs path = true
                           /\ (name ∉ names) /\ ttf_loads fs path = false
  end.
Proof.
  revert w; induction cands as [|[name path] cands IH]; intros w; cbn.
  - constructor.
  - destruct (path_exists fs path) eqn:Hex.
    + destruct (decide (name ∈ names)); cbn.
      * exists path; auto.
      * destruct (ttf_loads fs path) eqn:Hl; cbn.
        -- exists path; auto.
        -- split; [reflexivity|]. exists name, path; auto.
    + specialize (IH (check_exists path w)).
      destruct (fst (resolve_from names cands (check_exists path w)))
        as [[[n|] [f|]]|e]; try contradiction.
      * destruct IH as (p & Hin & Hrest); exists p; auto.
      * constructor; [exact Hex | exact IH].
      * destruct IH as (He & n & p & Hin & Hrest).
        split; [exact He|]. exists n, p; auto.
Qed.

(** A call that returned returns the same again, from any later state
    that knows the names of the first call and what it registered; the
    second call registers nothing. *)
Lemma resolve_from_again (names names' : gset str)
    (cands : list (str * Path)) (w v : process)
    (r : option str * option str) :
  fst (resolve_from names cands w) = Ok r ->
  names ⊆ names' ->
  registered (snd (resolve_from names cands w)) ⊆ names' ->
  fst (resolve_from names' cands v) = Ok r
  /\ registered (snd (resolve_from names' cands v)) = registered v
  /\ registrations (snd (resolve_from names' cands v)) = registrations v.
Proof.
  revert w v; induction cands as [|[name path] cands IH]; intros w v; cbn.
  - auto.
  - destruct (path_exists fs path);
      [|intros E H1 H2;
        exact (IH (check_exists path w) (check_exists path v) E H1 H2)].
    destruct (decide (name ∈ names)) as [Hin|Hout]; cbn.
    + intros E Hsub _.
      rewrite decide_True by (apply Hsub; exact Hin). now cbn.
    + destruct (ttf_loads fs path); cbn; [|discriminate].
      intros E _ Hsub.
      rewrite decide_True by (apply Hsub, elem_of_union_l, elem_of_singleton_2;
                              reflexivity).
      now cbn.
Qed.

End Resolve.

Lemma well_registered_step (base_dir : Path) (path_str : Path -> str)
    (fs : filesystem) (names : gset str) (w : process) :
  well_registered names w ->
  well_registered names (snd (resolve_korean_font base_dir path_str fs w)).
Proof.
  intros (Hnd & Hsub & Hlog); unfold resolve_korean_font.
  destruct (resolve_from_effect path_str fs (registered w)
              (candidates base_dir) w) as [[E1 E2]|(n & f & Hn & E1 & E2)];
    unfold well_registered; rewrite E1, E2.
  - auto.
  - cbn; split; [|split].
    + constructor; [|exact Hnd].
      intros Hin; apply Hlog in Hin as [_ Hin]; contradiction.
    + intros x Hx; apply elem_of_union_r, Hsub, Hx.
    + intros m [<-|Hin].
      * split; [intros Hm; apply Hn, Hsub, Hm|].
        apply elem_of_union_l, elem_of_singleton_2; reflexivity.
      * destruct (Hlog m Hin) as [Hm1 Hm2].
        split; [exact Hm1 | apply elem_of_union_r, Hm2].
Qed.

Lemma well_registered_many (base_dir : Path) (path_str : Path -> str)
    (disks : list filesystem) (names : gset str) (w : process) :
  well_registered names w ->
  well_registered names (resolve_many base_dir path_str disks w).
Proof.
  revert w; induction disks as [|fs disks IH]; intros w H; cbn; [exact H|].
  now apply IH, well_registered_step.
Qed.

End FontsFacts.

Module FontsClaims.
Import Fonts FontsFacts.

(** C4. [resolve_korean_font] goes through the four candidates in
    their order. For the first candidate whose path exists (its font file
    loads, or its name is registered already, so that nothing is raised)
    it returns that name with that path, and the existence checks of the
    call are those of the candidates up to this one: no later candidate
    is looked at, whether it exists or not. When no candidate exists it
    returns the pair of [None]s, raises nothing and registers nothing. *)
Theorem first_existing_candidate_wins (base_dir : Path)
    (path_str : Path -> str) (fs : filesystem) (w : process) :
  (forall pre name path post,
      candidates base_dir = pre ++ (name, path) :: post ->
      Forall (absent fs) pre ->
      path_exists fs path = true ->
      name ∈ registered w \/ ttf_loads fs path = true ->
      fst (resolve_korean_font base_dir path_str fs w) =
        Ok (Some name, Some (path_str path))
      /\ existence_checks (snd (resolve_korean_font base_dir path_str fs w)) =
           path :: rev (List.map snd pre) ++ existence_checks w)
  /\ (Forall (absent fs) (candidates base_dir) ->
      fst (resolve_korean_font base_dir path_str fs w) = Ok (None, None)
      /\ registered (snd (resolve_korean_font base_dir path_str fs w)) =
           registered w
      /\ registrations (snd (resolve_korean_font base_dir path_str fs w)) =
           registrations w).
Proof.
  split.
  - intros pre name path post Hc Hpre Hex Hok.
    unfold resolve_korean_font; rewrite Hc.
    destruct (resolve_from_first path_str fs (registered w) pre name path post w
                Hpre Hex) as [E1 E2].
    split; [|exact E1].
    rewrite E2.
    destruct (decide (name ∈ registered w)) as [|Hout]; [reflexivity|].
    destruct Hok as [Hin| ->]; [contradiction | reflexivity].
  - intros Hnone.
    destruct (resolve_from_absent path_str fs (registered w)
                (candidates base_dir) w Hnone) as (E1 & E2 & E3 & _).
    auto.
Qed.

Lemma first_existing_candidate_wins_witness :
  let p1 := PathDiv (PathDiv app_dir (lit "fonts")) (lit "NanumGothic.ttf") in
  let p3 := PathOf (lit "C:/Windows/Fonts/malgun.ttf") in
  let fs := disk_with [p1; p3] [p1; p3] in
  path_exists fs p1 = true /\ path_exists fs p3 = true
  /\ fst (resolve_korean_font app_dir show_path fs (fresh_process ∅)) =
       Ok (Some NanumGothic, Some (lit "/srv/app/fonts/NanumGothic.ttf"))
  /\ existence_checks
       (snd (resolve_korean_font app_dir show_path fs (fresh_process ∅))) = [p1].
Proof.
  intros p1 p3 fs.
  split; [reflexivity|]. split; [reflexivity|].
  destruct (first_existing_candidate_wins app_dir show_path fs (fresh_process ∅))
    as [H _].
  apply (H [] NanumGothic p1 (tl (candidates app_dir)));
    [reflexivity | constructor | reflexivity | right; reflexivity].
Defined.

(** C9. A call of [resolve_korean_font] gives one of three things: the
    pair of [None]s, when no candidate exists; a pair of a name and a
    path string, where the name is "NanumGothic" or "MalgunGothic" and
    the string is that of the path of a candidate with this name that was
    found to exist; or the error of reportlab for a font file that exists
    and cannot be loaded. A pair with one [None] is never returned, and
    where every existing candidate loads the call does return. *)
Theorem resolve_result_shape (base_dir : Path) (path_str : Path -> str)
    (fs : filesystem) (w : process) :
  match fst (resolve_korean_font base_dir path_str fs w) with
  | Ok (None, None) => Forall (absent fs) (candidates base_dir)
  | Ok (Some name, Some file) =>
      (name = NanumGothic \/ name = MalgunGothic)
      /\ exists path, In (name, path) (candidates base_dir)
                      /\ file = path_str path
                      /\ path_exists fs path = true
  | Ok (Some _, None) | Ok (None, Some _) => False
  | Raise e =>
      e = TTFError
      /\ exists name path, In (name, path) (candidates base_dir)
                           /\ path_exists fs path = true
                           /\ ttf_loads fs path = false
  end
  /\ (Forall (fun c => path_exists fs (snd c) = true -> ttf_loads fs (snd c) = true)
             (candidates base_dir) ->
      exists r, fst (resolve_korean_font base_dir path_str fs w) = Ok r).
Proof.
  pose proof (resolve_from_shape path_str fs (registered w)
                (candidates base_dir) w) as H.
  fold (resolve_korean_font base_dir path_str fs w) in H.
  destruct (fst (resolve_korean_font base_dir path_str fs w))
    as [[[n|] [f|]]|e]; try contradiction.
  - destruct H as (p & Hin & Hf & Hex & _).
    split; [|eauto]. split; [|eauto].
    cbn in Hin.
    destruct Hin as [E|[E|[E|[E|[]]]]]; injection E as <- _; auto.
  - split; [exact H | eauto].
  - destruct H as (He & n & p & Hin & Hex & _ & Hl).
    split; [split; eauto|].
    intros Hall. rewrite List.Forall_forall in Hall.
    specialize (Hall (n, p) Hin Hex). cbn in Hall; congruence.
Qed.

Lemma resolve_result_shape_witness :
  let p3 := PathOf (lit "C:/Windows/Fonts/malgun.ttf") in
  exists r, fst (resolve_korean_font app_dir show_path (disk_with [p3] [p3])
                   (fresh_process ∅)) = Ok r.
Proof.
  intros p3.
  apply (resolve_result_shape app_dir show_path (disk_with [p3] [p3])
           (fresh_process ∅)).
  repeat constructor; vm_compute; congruence.
Defined.

(** C5. Over any sequence of calls in one process, whatever is on disk
    at each call, no name is registered twice, a name that was registered
    when the process started is never registered, and every name that was
    registered is in the registry. Each call registers only after it has
    found the name missing from the registry. A call that returned,
    repeated on the same disk, returns the same pair, raises nothing and
    registers nothing. *)
Theorem registration_at_most_once (base_dir : Path) (path_str : Path -> str) :
  (forall (disks : list filesystem) (names : gset str),
      let w := resolve_many base_dir path_str disks (fresh_process names) in
      List.NoDup (List.map fst (registrations w))
      /\ (forall n, In n (List.map fst (registrations w)) ->
                    (n ∉ names) /\ n ∈ registered w))
  /\ (forall (fs : filesystem) (w : process),
        let w' := snd (resolve_korean_font base_dir path_str fs w) in
        (registrations w' = registrations w /\ registered w' = registered w)
        \/ (exists name file,
              (name ∉ registered w)
              /\ registrations w' = (name, file) :: registrations w
              /\ registered w' = {[ name ]} ∪ registered w))
  /\ (forall (fs : filesystem) (w : process) (r : option str * option str),
        fst (resolve_korean_font base_dir path_str fs w) = Ok r ->
        let w' := snd (resolve_korean_font base_dir path_str fs w) in
        fst (resolve_korean_font base_dir path_str fs w') = Ok r
        /\ registrations (snd (resolve_korean_font base_dir path_str fs w')) =
             registrations w'
        /\ registered (snd (resolve_korean_font base_dir path_str fs w')) =
             registered w').
Proof.
  split; [|split].
  - intros disks names w.
    assert (H0 : well_registered names (fresh_process names)).
    { split; [constructor|]. split; [reflexivity|]. intros n []. }
    destruct (well_registered_many base_dir path_str disks names _ H0)
      as (Hnd & _ & Hlog).
    split; [exact Hnd | exact Hlog].
  - intros fs w w'.
    destruct (resolve_from_effect path_str fs (registered w)
                (candidates base_dir) w) as [[E1 E2]|(n & f & Hn & E1 & E2)].
    + left; split; assumption.
    + right; exists n, f; repeat split; assumption.
  - intros fs w r Hr w'.
    unfold resolve_korean_font in *.
    destruct (resolve_from_again path_str fs (registered w) (registered w')
                (candidates base_dir) w w' r Hr) as (A & B & C);
      [|reflexivity|auto].
    subst w'.
    destruct (resolve_from_effect path_str fs (registered w)
                (candidates base_dir) w) as [[E1 _]|(n & f & _ & E1 & _)];
      rewrite E1; [reflexivity|].
    intros x Hx; apply elem_of_union_r, Hx.
Qed.

Lemma registration_at_most_once_witness :
  let p1 := PathDiv (PathDiv app_dir (lit "fonts")) (lit "NanumGothic.ttf") in
  let fs := disk_with [p1] [p1] in
  let w' := snd (resolve_korean_font app_dir show_path fs (fresh_process ∅)) in
  fst (resolve_korean_font app_dir show_path fs w') =
    Ok (Some NanumGothic, Some (lit "/srv/app/fonts/NanumGothic.ttf"))
  /\ registrations (snd (resolve_korean_font app_dir show_path fs w')) =
       registrations w'.
Proof.
  intros p1 fs w'.
  destruct (registration_at_most_once app_dir show_path) as (_ & _ & H).
  destruct (H fs (fresh_process ∅)
              (Some NanumGothic, Some (lit "/srv/app/fonts/NanumGothic.ttf")))
    as (E1 & E2 & _).
  - vm_compute; reflexivity.
  - split; [exact E1 | exact E2].
Defined.

End FontsClaims.

(** ** build_pdf_bytes *)

Module ReportFacts.
Import Report.

Lemma replace_app (old : char) (new : str) (a b : str) :
  replace old new (a ++ b) = replace old new a ++ replace old new b.
Proof. unfold replace; apply flat_map_app. Qed.

Lemma replace_flat_map (old : char) (new : str) (f : char -> str) (s : str) :
  replace old new (flat_map f s) = flat_map (fun c => replace old new (f c)) s.
Proof.
  induction s as [|c s IH]; [reflexivity|].
  cbn [flat_map]; now rewrite replace_app, IH.
Qed.

Lemma replace_as_flat_map (old : char) (new : str) (s : str) :
  replace old new s =
  replace old new (flat_map (fun c => [c]) s).
Proof.
  f_equal; induction s as [|c s IH]; [reflexivity|].
  cbn; now rewrite <- IH.
Qed.

Ltac case_char c k :=
  let E := fresh "E" in
  destruct (N.eqb_spec c k) as [E|E]; [subst c|].

(** [escape] works character by character. *)
Lemma escape_flat_map (data : str) : escape data = flat_map escape_char data.
Proof.
  unfold escape.
  rewrite (replace_as_flat_map AMP), !replace_flat_map.
  apply flat_map_ext; intros c; unfold escape_char.
  case_char c AMP; [reflexivity|].
  case_char c GT; [reflexivity|].
  case_char c LT; [reflexivity|].
  cbn. apply N.eqb_neq in E, E0, E1.
  now rewrite E; cbn; rewrite E0; cbn; rewrite E1.
Qed.

Lemma body_markup_flat_map (analysis_text : str) :
  body_markup analysis_text =
  flat_map (fun c => if (c =? NL)%N then BR else escape_char c) analysis_text.
Proof.
  unfold body_markup; rewrite escape_flat_map, replace_flat_map.
  apply flat_map_ext; intros c; unfold escape_char.
  case_char c NL; [reflexivity|].
  case_char c AMP; [reflexivity|].
  case_char c GT; [reflexivity|].
  case_char c LT; [reflexivity|].
  cbn. apply N.eqb_neq in E. now rewrite E.
Qed.

(** An escaped character is read back as that character. *)
Lemma read_escape_char (c : char) (rest : str) :
  read_from (InText 0) (escape_char c ++ rest) =
  Chr c :: read_from (InText 0) rest.
Proof.
  unfold escape_char.
  case_char c AMP; [reflexivity|].
  case_char c GT; [reflexivity|].
  case_char c LT; [reflexivity|].
  apply N.eqb_neq in E, E1.
  cbn; now rewrite E1, E.
Qed.

Lemma read_escape (data : str) (rest : str) :
  read_from (InText 0) (escape data ++ rest) =
  List.map Chr data ++ read_from (InText 0) rest.
Proof.
  rewrite escape_flat_map.
  induction data as [|c data IH]; [reflexivity|].
  cbn [flat_map List.map app].
  now rewrite <- app_assoc, read_escape_char, IH.
Qed.

(** A line break is read as one tag. *)
Lemma read_br (rest : str) :
  read_from (InText 0) (BR ++ rest) =
  Tag (lit "br/") :: read_from (InText 0) rest.
Proof. reflexivity. Qed.

Lemma read_body (analysis_text : str) :
  read_markup (body_markup analysis_text) = List.map body_token analysis_text.
Proof.
  unfold read_markup; rewrite body_markup_flat_map.
  induction analysis_text as [|c s IH]; [reflexivity|].
  cbn [flat_map List.map]; unfold body_token at 1.
  case_char c NL.
  - rewrite read_br; now rewrite IH.
  - rewrite read_escape_char; now rewrite IH.
Qed.

Lemma inert_escape_char (c : char) (rest : str) :
  inert (escape_char c ++ rest) = inert rest.
Proof.
  unfold escape_char.
  case_char c AMP; [reflexivity|].
  case_char c GT; [reflexivity|].
  case_char c LT; [reflexivity|].
  apply N.eqb_neq in E, E0, E1.
  cbn; now rewrite E, E0, E1.
Qed.

Lemma inert_escape (data : str) : inert (escape data) = true.
Proof.
  rewrite escape_flat_map.
  induction data as [|c data IH]; [reflexivity|].
  cbn [flat_map]; now rewrite inert_escape_char.
Qed.

Lemma body_markup_no_newline (analysis_text : str) :
  ~ In NL (body_markup analysis_text).
Proof.
  rewrite body_markup_flat_map, in_flat_map.
  intros (c & _ & Hin); revert Hin; cbn beta; unfold escape_char.
  case_char c NL; [vm_compute; intuition discriminate|].
  case_char c AMP; [vm_compute; intuition discriminate|].
  case_char c GT; [vm_compute; intuition discriminate|].
  case_char c LT; [vm_compute; intuition discriminate|].
  intros [Hin|[]]; congruence.
Qed.

Example escape_angle_brackets :
  escape (lit "OK <check>") = lit "OK &lt;check&gt;".
Proof. reflexivity. Qed.

(** Quotes are left as they are, and are read as characters. *)
Example escape_quotes :
  escape ([QUOT] ++ lit "a&b" ++ [APOS]) = [QUOT] ++ lit "a&amp;b" ++ [APOS]
  /\ read_markup (escape ([QUOT] ++ lit "a&b" ++ [APOS])) =
       List.map Chr ([QUOT] ++ lit "a&b" ++ [APOS]).
Proof. split; reflexivity. Qed.

Example body_line_breaks :
  body_markup (lit "a<b" ++ [NL] ++ lit "c") = lit "a&lt;b<br/>c".
Proof. reflexivity. Qed.

End ReportFacts.

Module ReportClaims.
Import Report ReportFacts.

(** C2. The story of [build_pdf_bytes] holds the time of analysis, the
    file name of the plan and the analysis text only in escaped form,
    after a fixed label (the first two) or as the whole body paragraph.
    [escape] rewrites each ampersand and angle bracket of a field into
    its reference and leaves every other character, quotes included, as
    it is. Hence an escaped field has no [<] and no [>], each of its
    ampersands starts a reference, and a reader of the markup finds no tag
    in it and reads back the characters of the field, one for one. In the
    body each newline of the analysis text is read as one line break, any
    other character as itself, and no newline character is left. *)
Theorem free_text_is_escaped (analysis_text plan_filename analyzed_at : str)
    (font_name : option str) :
  let doc := report_document analysis_text plan_filename analyzed_at font_name in
  paragraph_texts (story doc) =
    [ title_text;
      analyzed_at_label ++ escape analyzed_at;
      plan_filename_label ++ escape plan_filename;
      body_label;
      replace NL BR (escape analysis_text) ]
  /\ (forall field : str,
        escape field = flat_map escape_char field
        /\ inert (escape field) = true
        /\ read_markup (escape field) = List.map Chr field)
  /\ read_markup (analyzed_at_label ++ escape analyzed_at) =
       List.map Chr (analyzed_at_label ++ analyzed_at)
  /\ read_markup (plan_filename_label ++ escape plan_filename) =
       List.map Chr (plan_filename_label ++ plan_filename)
  /\ read_markup (replace NL BR (escape analysis_text)) =
       List.map body_token analysis_text
  /\ ~ In NL (replace NL BR (escape analysis_text)).
Proof.
  intros doc.
  assert (Hread : forall field, read_markup (escape field) = List.map Chr field).
  { intros field; unfold read_markup.
    rewrite <- (app_nil_r (escape field)), read_escape.
    now rewrite app_nil_r. }
  split; [reflexivity|].
  split; [intros field; split; [apply escape_flat_map|];
          split; [apply inert_escape | apply Hread]|].
  split.
  { change (read_markup (analyzed_at_label ++ escape analyzed_at))
      with (List.map Chr analyzed_at_label ++ read_markup (escape analyzed_at)).
    now rewrite Hread, List.map_app. }
  split.
  { change (read_markup (plan_filename_label ++ escape plan_filename))
      with (List.map Chr plan_filename_label
            ++ read_markup (escape plan_filename)).
    now rewrite Hread, List.map_app. }
  split; [apply read_body | apply body_markup_no_newline].
Qed.

(** C10. A font name that is the empty string gives the same document
    as no font name: the base font is "Helvetica", in the title style and
    in the body style of every paragraph, for every analysis text, file
    name and time. A font name that is not empty is used as it is. *)
Theorem empty_font_name_falls_back (analysis_text plan_filename analyzed_at : str) :
  base_font_of (Some []) = Helvetica
  /\ base_font_of None = Helvetica
  /\ paragraph_fonts
       (story (report_document analysis_text plan_filename analyzed_at (Some [])))
     = [Helvetica; Helvetica; Helvetica; Helvetica; Helvetica]
  /\ report_document analysis_text plan_filename analyzed_at (Some [])
     = report_document analysis_text plan_filename analyzed_at None
  /\ (forall render : document -> bytes,
        build_pdf_bytes render analysis_text plan_filename analyzed_at (Some [])
        = build_pdf_bytes render analysis_text plan_filename analyzed_at None)
  /\ (forall (c : char) (t : str), base_font_of (Some (c :: t)) = c :: t).
Proof. repeat split. Qed.

End ReportClaims.


(** ** Further properties of extract_pdf_text *)

Module ExtractMore.
Import Extract PyStrFacts ExtractFacts.

Lemma lstrip_app_visible (x ws : str) :
  lstrip x <> [] -> lstrip (x ++ ws) = lstrip x ++ ws.
Proof.
  induction x as [|c x IH]; simpl; [contradiction|].
  destruct (isspace c); [exact IH | reflexivity].
Qed.

Lemma lstrip_app_whitespace (ws x : str) :
  whitespace_only ws = true -> lstrip (ws ++ x) = lstrip x.
Proof.
  induction ws as [|c ws IH]; simpl; [reflexivity|].
  intros H; apply andb_prop in H as [Hc Hws]; rewrite Hc; auto.
Qed.

Lemma strip_app_whitespace_r (x ws : str) :
  whitespace_only ws = true -> strip (x ++ ws) = strip x.
Proof.
  intros Hws; unfold strip.
  destruct (lstrip x) as [|c t] eqn:E.
  - apply lstrip_nil_whitespace_only in E.
    rewrite lstrip_whitespace_only; [reflexivity|].
    now rewrite whitespace_only_app, E, Hws.
  - rewrite lstrip_app_visible by (rewrite E; discriminate).
    rewrite E; now apply rstrip_app_whitespace.
Qed.

Lemma strip_app_whitespace_l (ws x : str) :
  whitespace_only ws = true -> strip (ws ++ x) = strip x.
Proof. intros Hws; unfold strip; now rewrite lstrip_app_whitespace. Qed.

Lemma chunks_of_app (p q : list page) :
  chunks_of (p ++ q) = chunks_of p ++ chunks_of q.
Proof.
  now rewrite !chunks_of_filter, List.map_app, List.filter_app, List.map_app.
Qed.

Lemma join_app (sep : str) (a b : list str) :
  a <> [] -> b <> [] ->
  join sep (a ++ b) = join sep a ++ sep ++ join sep b.
Proof.
  intros Ha Hb; induction a as [|x a IH]; [contradiction|].
  destruct a as [|y a].
  - destruct b; [contradiction | reflexivity].
  - change ((x :: y :: a) ++ b) with (x :: y :: (a ++ b)).
    rewrite !join_cons2.
    change (y :: a ++ b) with ((y :: a) ++ b).
    rewrite IH by discriminate.
    now rewrite <- !app_assoc.
Qed.

Lemma join_snoc_nil (sep : str) (a : list str) :
  join sep (a ++ [[]]) = match a with [] => [] | _ => join sep a ++ sep end.
Proof.
  destruct a as [|x a]; [reflexivity|].
  rewrite join_app by discriminate. cbn [join]; now rewrite app_nil_r.
Qed.

Lemma page_sep_whitespace : whitespace_only page_sep = true.
Proof. reflexivity. Qed.

(** X1. For two bounds [0 <= m <= n], the result for [m] is the result
    for [n] cut to [m] characters: a smaller budget only removes
    characters from the end. *)
Theorem extract_bound_monotone (PdfReader : bytes -> result (list page))
    (pdf_bytes : bytes) (m n : Z) (pages : list page) :
  0 <= m <= n ->
  PdfReader pdf_bytes = Ok pages ->
  exists out_m out_n rest,
    extract_pdf_text PdfReader pdf_bytes m = Ok out_m
    /\ extract_pdf_text PdfReader pdf_bytes n = Ok out_n
    /\ out_m = slice_to out_n m
    /\ out_n = out_m ++ rest.
Proof.
  intros Hmn Hread; unfold extract_pdf_text; rewrite Hread.
  rewrite !slice_to_nonneg by lia.
  exists (firstn (Z.to_nat m) (full_text pages)),
         (firstn (Z.to_nat n) (full_text pages)),
         (skipn (Z.to_nat m) (firstn (Z.to_nat n) (full_text pages))).
  assert (E : firstn (Z.to_nat m) (firstn (Z.to_nat n) (full_text pages)) =
              firstn (Z.to_nat m) (full_text pages)).
  { rewrite firstn_firstn; f_equal; lia. }
  repeat split.
  - rewrite slice_to_nonneg by lia. now rewrite E.
  - rewrite <- E at 1. now rewrite firstn_skipn.
Qed.

Lemma extract_bound_monotone_witness :
  exists out_m out_n rest,
    extract_pdf_text (fun _ => Ok [Some (lit "Rule 1"); Some (lit "Rule 2")]) [] 3
      = Ok out_m
    /\ extract_pdf_text (fun _ => Ok [Some (lit "Rule 1"); Some (lit "Rule 2")]) [] 9
       = Ok out_n
    /\ out_m = slice_to out_n 3
    /\ out_n = out_m ++ rest.
Proof.
  apply (extract_bound_monotone _ _ 3 9 [Some (lit "Rule 1"); Some (lit "Rule 2")]);
    [lia | reflexivity].
Defined.

(** X2. A negative bound does not bound the result: the slice then
    drops [-max_chars] characters from the end of the text, so the
    result has [max 0 (len + max_chars)] characters. *)
Theorem extract_negative_bound_length (PdfReader : bytes -> result (list page))
    (pdf_bytes : bytes) (max_chars : Z) (pages : list page) :
  max_chars < 0 ->
  PdfReader pdf_bytes = Ok pages ->
  exists out rest,
    extract_pdf_text PdfReader pdf_bytes max_chars = Ok out
    /\ full_text pages = out ++ rest
    /\ Z.of_nat (length out) =
         Z.max 0 (Z.of_nat (length (full_text pages)) + max_chars)
    /\ Z.of_nat (length rest) =
         Z.min (Z.of_nat (length (full_text pages))) (- max_chars).
Proof.
  intros Hneg Hread; unfold extract_pdf_text, slice_to; rewrite Hread.
  destruct (max_chars <? 0) eqn:E; [|apply Z.ltb_ge in E; lia].
  set (k := Z.to_nat (Z.of_nat (length (full_text pages)) + max_chars)).
  exists (firstn k (full_text pages)), (skipn k (full_text pages)).
  split; [reflexivity|].
  split; [now rewrite firstn_skipn|].
  rewrite length_firstn, length_skipn; subst k; lia.
Qed.

Lemma extract_negative_bound_length_witness :
  exists out rest,
    extract_pdf_text (fun _ => Ok [Some (lit "abc")]) [] (-1) = Ok out
    /\ full_text [Some (lit "abc")] = out ++ rest
    /\ Z.of_nat (length out) = 2
    /\ Z.of_nat (length rest) = 1.
Proof.
  apply (extract_negative_bound_length (fun _ => Ok [Some (lit "abc")]) [] (-1)
           [Some (lit "abc")]); [lia | reflexivity].
Defined.

(** X3. For a bound that is not negative, a result that is not empty
    starts with a character that is not whitespace; and when the text
    fits into the bound the result is the whole text and has no
    whitespace at its end either. *)
Theorem extract_output_ends (PdfReader : bytes -> result (list page))
    (pdf_bytes : bytes) (max_chars : Z) (pages : list page) :
  0 <= max_chars ->
  PdfReader pdf_bytes = Ok pages ->
  exists out,
    extract_pdf_text PdfReader pdf_bytes max_chars = Ok out
    /\ match out with [] => True | c :: _ => isspace c = false end
    /\ (Z.of_nat (length (full_text pages)) <= max_chars ->
        out = full_text pages /\ trimmed out = true).
Proof.
  intros Hmax Hread.
  destruct (extract_pdf_text PdfReader pdf_bytes max_chars) as [out|e] eqn:E;
    [|unfold extract_pdf_text in E; rewrite Hread in E; discriminate].
  exists out; split; [reflexivity|]. split.
  - destruct out as [|c t]; [exact I|].
    exact (AppFacts.extract_head_visible PdfReader pdf_bytes max_chars c t Hmax E).
  - intros Hfit. unfold extract_pdf_text in E; rewrite Hread in E.
    injection E as <-. rewrite slice_to_fits by exact Hfit.
    split; [reflexivity | apply strip_trimmed].
Qed.

Lemma extract_output_ends_witness :
  exists out,
    extract_pdf_text (fun _ => Ok [Some (lit " Rule 1 ")]) [] 10 = Ok out
    /\ match out with [] => True | c :: _ => isspace c = false end
    /\ (Z.of_nat (length (full_text [Some (lit " Rule 1 ")])) <= 10 ->
        out = full_text [Some (lit " Rule 1 ")] /\ trimmed out = true).
Proof.
  apply (extract_output_ends (fun _ => Ok [Some (lit " Rule 1 ")]) [] 10);
    [lia | reflexivity].
Defined.

(** X4. Putting two documents one after the other joins their texts: if
    neither has a page of whitespace only and each has a page with text,
    the text of the pages of both is the text of the first, a double
    newline and the text of the second. *)
Theorem full_text_app (p q : list page) :
  Forall (fun x => whitespace_only (page_text x) = true -> page_text x = []) p ->
  Forall (fun x => whitespace_only (page_text x) = true -> page_text x = []) q ->
  (0 < yielding p)%nat -> (0 < yielding q)%nat ->
  full_text (p ++ q) = full_text p ++ page_sep ++ full_text q.
Proof.
  intros Hp Hq Np Nq.
  pose proof (visible_chunks p Hp) as Cp.
  pose proof (visible_chunks q Hq) as Cq.
  rewrite <- chunks_length in Np, Nq.
  unfold full_text; rewrite chunks_of_app.
  rewrite (strip_of_trimmed _ (join_trimmed page_sep _ Cp)).
  rewrite (strip_of_trimmed _ (join_trimmed page_sep _ Cq)).
  rewrite <- join_app by (intros E; rewrite E in *; simpl in *; lia).
  apply strip_of_trimmed, join_trimmed, Forall_app; auto.
Qed.

Lemma full_text_app_witness :
  full_text ([Some (lit "Rule 1"); None] ++ [Some (lit " Rule 2")]) =
  lit "Rule 1" ++ page_sep ++ lit "Rule 2".
Proof.
  apply (full_text_app [Some (lit "Rule 1"); None] [Some (lit " Rule 2")]).
  - repeat constructor; simpl; discriminate.
  - repeat constructor; simpl; discriminate.
  - vm_compute; lia.
  - vm_compute; lia.
Defined.

(** X5. A page of whitespace only at the start or at the end of a
    document leaves no trace in the text: the empty chunk it adds and
    the separator next to it are stripped from the join. *)
Theorem blank_page_at_an_end (p : page) (pages : list page) :
  whitespace_only (page_text p) = true ->
  full_text (pages ++ [p]) = full_text pages
  /\ full_text (p :: pages) = full_text pages.
Proof.
  intros Hws.
  assert (Hc : chunks_of [p] = [] \/ chunks_of [p] = [[]]).
  { unfold chunks_of; cbn [fold_left]; unfold add_page.
    destruct (truthy (page_text p)); [right | now left].
    cbn [app]; now rewrite strip_whitespace_only. }
  unfold full_text; split.
  - rewrite chunks_of_app.
    destruct Hc as [-> | ->]; [now rewrite app_nil_r|].
    rewrite join_snoc_nil.
    destruct (chunks_of pages) as [|c cs]; [reflexivity|].
    now apply strip_app_whitespace_r.
  - change (p :: pages) with ([p] ++ pages); rewrite chunks_of_app.
    destruct Hc as [-> | ->]; [reflexivity|].
    destruct (chunks_of pages) as [|c cs]; [reflexivity|].
    change ([[]] ++ c :: cs) with ([] :: c :: cs).
    rewrite join_cons2. cbn [app].
    now apply strip_app_whitespace_l.
Qed.

Lemma blank_page_at_an_end_witness :
  full_text ([Some (lit "Rule 1")] ++ [Some (lit "  ")]) =
    full_text [Some (lit "Rule 1")]
  /\ full_text (Some (lit "  ") :: [Some (lit "Rule 1")]) =
       full_text [Some (lit "Rule 1")].
Proof.
  apply (blank_page_at_an_end (Some (lit "  ")) [Some (lit "Rule 1")]).
  reflexivity.
Defined.

End ExtractMore.


(** ** Further properties of the analysis run *)

Module AppMore.
Import Extract App PyStrFacts ExtractFacts AppFacts.

Lemma readable_extracts (PdfReader : bytes -> result (list page))
    (law_pdfs : list bytes) :
  Forall (fun pdf => exists pages, PdfReader pdf = Ok pages) law_pdfs ->
  exists texts,
    Forall2 (fun pdf t => extract_pdf_text PdfReader pdf default_max_chars = Ok t)
            law_pdfs texts.
Proof.
  induction 1 as [|pdf pdfs [pages Hp] _ [texts IH]].
  - exists []; constructor.
  - exists (slice_to (full_text pages) default_max_chars :: texts).
    constructor; [|exact IH].
    unfold extract_pdf_text; now rewrite Hp.
Qed.

(** A loop that came to its end has read every document. *)
Lemma gather_ok_inv (PdfReader : bytes -> result (list page))
    (law_pdfs : list bytes) (acc texts : list str) (n : nat) :
  gather PdfReader law_pdfs acc = (Ok texts, n) ->
  n = length law_pdfs
  /\ Forall (fun pdf => exists pages, PdfReader pdf = Ok pages) law_pdfs.
Proof.
  revert acc n; induction law_pdfs as [|pdf pdfs IH]; intros acc n; simpl.
  - intros E; injection E as _ <-; split; [reflexivity | constructor].
  - unfold extract_pdf_text at 1.
    destruct (PdfReader pdf) as [pages|e] eqn:Hp; [|discriminate].
    destruct (gather PdfReader pdfs _) as [r k] eqn:G.
    intros E; injection E as -> <-.
    destruct (IH _ _ G) as [-> Hall].
    split; [reflexivity|]. constructor; eauto.
Qed.

(** X6. When every document can be read and none yields text, the run
    ends with the message that no text could be extracted, after one
    extraction for each document, and the analysis service is not
    called: the outcome is the same for every service. *)
Theorem run_without_text (PdfReader : bytes -> result (list page))
    (generate_content : str -> result str) (law_pdfs : list bytes) :
  Forall (fun pdf => extract_pdf_text PdfReader pdf default_max_chars = Ok [])
         law_pdfs ->
  run_analysis PdfReader generate_content law_pdfs =
    (NoTextError, length law_pdfs).
Proof.
  intros Hall.
  assert (H2 : Forall2
                 (fun pdf t => extract_pdf_text PdfReader pdf default_max_chars = Ok t)
                 law_pdfs (List.map (fun _ => []) law_pdfs)).
  { induction Hall; constructor; auto. }
  unfold run_analysis.
  rewrite (gather_all_read PdfReader law_pdfs _ [] H2).
  replace (List.filter truthy (List.map (fun _ : bytes => []) law_pdfs))
    with (@nil str); [reflexivity|].
  clear; induction law_pdfs; simpl; auto.
Qed.

Lemma run_without_text_witness :
  run_analysis pages_reader (fun _ => Raise ServiceError)
    [lit " "; [12%N; 12%N]] = (NoTextError, 2%nat).
Proof.
  apply (run_without_text pages_reader (fun _ => Raise ServiceError)
           [lit " "; [12%N; 12%N]]).
  repeat constructor.
Defined.

(** X7. A run that stores a result has read every document, has called
    the extractor once for each, and has given the service a text that
    is not empty and has no whitespace at either end; the stored answer
    is the answer of the service, stripped. *)
Theorem run_result_sound (PdfReader : bytes -> result (list page))
    (generate_content : str -> result str) (law_pdfs : list bytes)
    (law_text analysis : str) (n : nat) :
  run_analysis PdfReader generate_content law_pdfs =
    (AnalysisResult law_text analysis, n) ->
  law_text <> [] /\ trimmed law_text = true
  /\ n = length law_pdfs
  /\ Forall (fun pdf => exists pages, PdfReader pdf = Ok pages) law_pdfs
  /\ (exists answer, generate_content law_text = Ok answer
                     /\ analysis = strip answer)
  /\ trimmed analysis = true.
Proof.
  unfold run_analysis.
  destruct (gather PdfReader law_pdfs []) as [[texts|e] k] eqn:G; [|discriminate].
  destruct (gather_ok_inv _ _ _ _ _ G) as [-> Hall].
  pose proof (strip_trimmed (join doc_sep texts)) as T.
  fold (aggregate texts) in T.
  destruct (aggregate texts) as [|c t] eqn:A; [discriminate|].
  cbn [truthy]; unfold analyze_floorplan.
  destruct (generate_content (c :: t)) as [answer|e] eqn:S; [|discriminate].
  intros E; inversion E; subst.
  split; [discriminate|]. split; [exact T|]. split; [reflexivity|].
  split; [exact Hall|]. split; [eauto | apply strip_trimmed].
Qed.

Lemma run_result_sound_witness :
  let law := lit "Rule 1" ++ doc_sep ++ lit "Rule 2" in
  run_analysis pages_reader echo_service [lit "Rule 1"; lit "Rule 2"] =
    (AnalysisResult law law, 2%nat)
  /\ trimmed law = true
  /\ exists answer, echo_service law = Ok answer /\ law = strip answer.
Proof.
  intros law.
  assert (E : run_analysis pages_reader echo_service [lit "Rule 1"; lit "Rule 2"]
              = (AnalysisResult law law, 2%nat)) by reflexivity.
  destruct (run_result_sound pages_reader echo_service
              [lit "Rule 1"; lit "Rule 2"] law law 2 E)
    as (_ & T & _ & _ & A & _).
  split; [exact E|]. split; [exact T | exact A].
Defined.

Lemma separator_lines_nil : separator_lines [] = 0%nat.
Proof. reflexivity. Qed.

(** X8. For any number of results that are not empty and have no
    whitespace at either end (results that were not cut), stripping the
    aggregate changes nothing, and the aggregate has one line of three
    hyphens for each gap between two results beside those that the
    results have themselves. *)
Theorem aggregate_many (texts : list str) :
  Forall (fun t => t <> [] /\ trimmed t = true) texts ->
  aggregate texts = join doc_sep texts
  /\ separator_lines (aggregate texts) =
       (list_sum (List.map separator_lines texts) + (length texts - 1))%nat.
Proof.
  intros H.
  assert (E : aggregate texts = join doc_sep texts).
  { unfold aggregate; now apply strip_of_trimmed, join_trimmed. }
  split; [exact E|]. rewrite E; clear E.
  induction H as [|t ts _ Hts IH]; [reflexivity|].
  destruct ts as [|t' ts].
  - unfold list_sum; cbn [join List.map fold_right length]. lia.
  - rewrite join_cons2, separator_lines_doc_sep.
    unfold str, char in *; rewrite IH.
    unfold list_sum; cbn [List.map fold_right length]. lia.
Qed.

Lemma aggregate_many_witness :
  aggregate [lit "a"; lit "b"; lit "c"] =
    join doc_sep [lit "a"; lit "b"; lit "c"]
  /\ separator_lines (aggregate [lit "a"; lit "b"; lit "c"]) = 2%nat.
Proof.
  apply (aggregate_many [lit "a"; lit "b"; lit "c"]).
  repeat constructor; discriminate.
Defined.

Lemma gather_filtered (PdfReader : bytes -> result (list page))
    (law_pdfs : list bytes) (texts acc : list str) :
  Forall2 (fun pdf t => extract_pdf_text PdfReader pdf default_max_chars = Ok t)
          law_pdfs texts ->
  let kept :=
    List.filter
      (fun pdf =>
         match extract_pdf_text PdfReader pdf default_max_chars with
         | Ok (_ :: _) => true
         | _ => false
         end) law_pdfs in
  gather PdfReader kept acc = (Ok (acc ++ List.filter truthy texts), length kept).
Proof.
  intros H; revert acc; induction H as [|pdf t pdfs ts Hx _ IH]; intros acc.
  - simpl; now rewrite app_nil_r.
  - cbn zeta in *. cbn [List.filter]; rewrite Hx.
    destruct t as [|c t]; cbn [truthy]; [apply IH|].
    cbn [gather length]; rewrite Hx; cbn [truthy].
    rewrite IH. now rewrite <- app_assoc.
Qed.

(** X9. Documents that can be read and yield no text do not count:
    the run shows the same as the run on the other documents alone. *)
Theorem empty_results_are_ignored (PdfReader : bytes -> result (list page))
    (generate_content : str -> result str) (law_pdfs : list bytes) :
  Forall (fun pdf => exists pages, PdfReader pdf = Ok pages) law_pdfs ->
  fst (run_analysis PdfReader generate_content law_pdfs) =
  fst (run_analysis PdfReader generate_content
         (List.filter
            (fun pdf =>
               match extract_pdf_text PdfReader pdf default_max_chars with
               | Ok (_ :: _) => true
               | _ => false
               end) law_pdfs)).
Proof.
  intros Hall.
  destruct (readable_extracts PdfReader law_pdfs Hall) as [texts H2].
  pose proof (gather_filtered PdfReader law_pdfs texts [] H2) as Hf.
  cbn zeta in Hf.
  unfold run_analysis.
  rewrite (gather_all_read PdfReader law_pdfs texts [] H2), Hf.
  cbn [app].
  destruct (truthy (aggregate (List.filter truthy texts))); [|reflexivity].
  now destruct (analyze_floorplan generate_content
                  (aggregate (List.filter truthy texts))).
Qed.

Lemma empty_results_are_ignored_witness :
  fst (run_analysis pages_reader echo_service [lit "Rule 1"; lit " "; lit "Rule 2"])
  = fst (run_analysis pages_reader echo_service [lit "Rule 1"; lit "Rule 2"]).
Proof.
  apply (empty_results_are_ignored pages_reader echo_service
           [lit "Rule 1"; lit " "; lit "Rule 2"]).
  repeat constructor; eexists; reflexivity.
Defined.

End AppMore.


(** ** The choice of the model *)

Module ModelsFacts.
Import Models PyMore.

(** What the loop with its [break] computes. *)
Lemma default_index_from_cases (idx : nat) (names : list str) :
  (default_index_from idx names = 0%nat
   /\ Forall (fun n => preferred n = false) names)
  \/ (exists pre n post,
        names = pre ++ n :: post
        /\ Forall (fun x => preferred x = false) pre
        /\ preferred n = true
        /\ default_index_from idx names = (idx + length pre)%nat).
Proof.
  revert idx; induction names as [|n names IH]; intros idx; cbn.
  - left; split; [reflexivity | constructor].
  - destruct (preferred n) eqn:P.
    + right; exists [], n, names; cbn.
      split; [reflexivity|]. split; [constructor|]. split; [exact P | lia].
    + destruct (IH (S idx)) as [[E H]|(pre & x & post & -> & Hpre & Hx & E)].
      * left; split; [exact E | now constructor].
      * right; exists (n :: pre), x, post; cbn.
        split; [reflexivity|]. split; [now constructor|].
        split; [exact Hx | rewrite E; lia].
Qed.

(** X10. Where a select box is shown, its options are the names that
    start with "models/", in the order of the service, and its index is
    a position in that list: that of the first name that ends with
    "gemini-1.5-flash-latest" or "gemini-pro", whichever comes first in
    the list, or 0 when no name ends so. No box is shown exactly when no
    name starts with "models/". *)
Theorem default_model_choice (names : list str) :
  match selectbox_args names with
  | None => model_names names = []
  | Some (options, index) =>
      options = model_names names
      /\ Forall (fun o => startswith (lit "models/") o = true) options
      /\ (index < length options)%nat
      /\ (forall j o, (j < index)%nat -> nth_error options j = Some o ->
                      preferred o = false)
      /\ ((exists o, nth_error options index = Some o /\ preferred o = true)
          \/ (index = 0%nat /\ Forall (fun o => preferred o = false) options))
  end.
Proof.
  unfold selectbox_args.
  assert (Hstart : Forall (fun o => startswith (lit "models/") o = true)
                          (model_names names)).
  { unfold model_names; apply List.Forall_forall; intros o Ho.
    now apply List.filter_In in Ho as [_ Ho]. }
  destruct (model_names names) as [|n ns] eqn:E; [reflexivity|].
  split; [reflexivity|]. split; [exact Hstart|].
  unfold default_index.
  destruct (default_index_from_cases 0 (n :: ns))
    as [[E0 Hno]|(pre & x & post & Hsplit & Hpre & Hx & E0)]; rewrite E0.
  - split; [cbn; lia|]. split; [intros j o Hj; lia|]. now right.
  - rewrite Hsplit. cbn [Nat.add].
    split; [rewrite length_app; cbn; lia|].
    split.
    + intros j o Hj Hn.
      rewrite nth_error_app1 in Hn by exact Hj.
      apply nth_error_In in Hn.
      rewrite List.Forall_forall in Hpre; now apply Hpre.
    + left; exists x; split; [|exact Hx].
      rewrite nth_error_app2 by lia. now rewrite Nat.sub_diag.
Qed.

(** The list order decides between the two endings: a name that ends
    with "gemini-pro" is chosen when it comes before one that ends with
    "gemini-1.5-flash-latest". *)
Example default_model_choice_order :
  selectbox_args
    [ lit "tunedModels/mine";
      lit "models/embedding-001";
      lit "models/gemini-pro";
      lit "models/gemini-1.5-flash-latest" ]
  = Some ([ lit "models/embedding-001";
            lit "models/gemini-pro";
            lit "models/gemini-1.5-flash-latest" ], 1%nat).
Proof. reflexivity. Qed.

End ModelsFacts.


(** ** Further properties of resolve_korean_font *)

Module FontsMore.
Import Fonts FontsFacts.

(** What a call does to the process, with the candidate it used. *)
Lemma resolve_from_registers (path_str : Path -> str) (fs : filesystem)
    (names : gset str) (cands : list (str * Path)) (w : process) :
  let r := resolve_from path_str fs names cands w in
  (registered (snd r) = registered w /\ registrations (snd r) = registrations w
   /\ forall name f, fst r = Ok (Some name, f) -> name ∈ names)
  \/ (exists name path,
        In (name, path) cands
        /\ (name ∉ names)
        /\ fst r = Ok (Some name, Some (path_str path))
        /\ registered (snd r) = {[ name ]} ∪ registered w
        /\ registrations (snd r) = (name, path_str path) :: registrations w).
Proof.
  revert w; induction cands as [|[name path] cands IH]; intros w; cbn.
  - left; repeat split; auto; discriminate.
  - destruct (path_exists fs path).
    + destruct (decide (name ∈ names)) as [Hin|Hout]; cbn.
      * left; repeat split; auto. intros n f E; injection E as <- _; exact Hin.
      * destruct (ttf_loads fs path); cbn.
        -- right; exists name, path; repeat split; auto.
        -- left; repeat split; auto; discriminate.
    + destruct (IH (check_exists path w))
        as [(E1 & E2 & E3)|(n & p & Hin & Hn & E1 & E2 & E3)].
      * left; repeat split; auto.
      * right; exists n, p; repeat split; auto.
Qed.

Lemma candidate_names (base_dir : Path) (name : str) (path : Path) :
  In (name, path) (candidates base_dir) ->
  name = NanumGothic \/ name = MalgunGothic.
Proof.
  cbn; intros [E|[E|[E|[E|[]]]]]; injection E as <- _; auto.
Qed.

(** The first candidate on disk, with a name that is not registered and
    a file that does not load. *)
Lemma resolve_from_raises (path_str : Path -> str) (fs : filesystem)
    (names : gset str) (pre : list (str * Path)) (name : str) (path : Path)
    (post : list (str * Path)) (w : process) :
  Forall (absent fs) pre ->
  path_exists fs path = true ->
  name ∉ names ->
  ttf_loads fs path = false ->
  let r := resolve_from path_str fs names (pre ++ (name, path) :: post) w in
  fst r = Raise TTFError
  /\ registered (snd r) = registered w
  /\ registrations (snd r) = registrations w.
Proof.
  intros H Hex Hn Hl; revert w; induction H as [|[n p] pre Hc _ IH]; intros w.
  - cbn; rewrite Hex, Hl.
    destruct (decide (name ∈ names)); [contradiction | now cbn].
  - unfold absent in Hc; cbn in Hc. cbn; rewrite Hc.
    exact (IH (check_exists p w)).
Qed.

(** X11. When the first candidate on disk has a name that is not
    registered and a file that reportlab cannot load, the call raises
    the error of reportlab. It does not go on to a later candidate,
    whether that one exists and loads or not, and it registers nothing. *)
Theorem unloadable_font_raises (base_dir : Path) (path_str : Path -> str)
    (fs : filesystem) (w : process)
    (pre : list (str * Path)) (name : str) (path : Path)
    (post : list (str * Path)) :
  candidates base_dir = pre ++ (name, path) :: post ->
  Forall (absent fs) pre ->
  path_exists fs path = true ->
  name ∉ registered w ->
  ttf_loads fs path = false ->
  fst (resolve_korean_font base_dir path_str fs w) = Raise TTFError
  /\ registered (snd (resolve_korean_font base_dir path_str fs w)) = registered w
  /\ registrations (snd (resolve_korean_font base_dir path_str fs w)) =
       registrations w
  /\ existence_checks (snd (resolve_korean_font base_dir path_str fs w)) =
       path :: rev (List.map snd pre) ++ existence_checks w.
Proof.
  intros Hc Hpre Hex Hn Hl; unfold resolve_korean_font; rewrite Hc.
  destruct (resolve_from_raises path_str fs (registered w) pre name path post w
              Hpre Hex Hn Hl) as (E1 & E2 & E3).
  destruct (resolve_from_first path_str fs (registered w) pre name path post w
              Hpre Hex) as [E4 _].
  auto.
Qed.

Lemma unloadable_font_raises_witness :
  let p1 := PathDiv (PathDiv app_dir (lit "fonts")) (lit "NanumGothic.ttf") in
  let p3 := PathOf (lit "C:/Windows/Fonts/malgun.ttf") in
  let fs := disk_with [p1; p3] [p3] in
  ttf_loads fs p3 = true
  /\ fst (resolve_korean_font app_dir show_path fs (fresh_process ∅)) =
       Raise TTFError
  /\ existence_checks
       (snd (resolve_korean_font app_dir show_path fs (fresh_process ∅))) = [p1].
Proof.
  intros p1 p3 fs.
  split; [reflexivity|].
  destruct (unloadable_font_raises app_dir show_path fs (fresh_process ∅)
              [] NanumGothic p1 (tl (candidates app_dir)))
    as (E1 & _ & _ & E4);
    [reflexivity | constructor | reflexivity | | reflexivity | ].
  - apply not_elem_of_empty.
  - split; [exact E1 | exact E4].
Defined.

(** X12. A call never removes a name from the registry, and adds at
    most the name of a candidate. A name that a call returns is in the
    registry when the call returns, so that a document can be set in
    it. *)
Theorem returned_name_is_registered (base_dir : Path) (path_str : Path -> str)
    (fs : filesystem) (w : process) :
  let r := resolve_korean_font base_dir path_str fs w in
  registered w ⊆ registered (snd r)
  /\ (forall n, n ∈ registered (snd r) ->
                n ∈ registered w \/ n = NanumGothic \/ n = MalgunGothic)
  /\ (forall name f, fst r = Ok (Some name, f) -> name ∈ registered (snd r)).
Proof.
  unfold resolve_korean_font.
  destruct (resolve_from_registers path_str fs (registered w)
              (candidates base_dir) w)
    as [(E1 & E2 & E3)|(n & p & Hin & Hn & E1 & E2 & E3)]; cbn zeta.
  - rewrite E1. split; [reflexivity|]. split; [auto|].
    intros name f E; exact (E3 name f E).
  - rewrite E2. split; [intros x Hx; apply elem_of_union_r, Hx|]. split.
    + intros x Hx. apply elem_of_union in Hx as [Hx|Hx]; [|auto].
      apply elem_of_singleton_1 in Hx; subst x.
      right; exact (candidate_names base_dir n p Hin).
    + intros name f E. rewrite E1 in E; injection E as <- _.
      apply elem_of_union_l, elem_of_singleton_2; reflexivity.
Qed.

Lemma returned_name_is_registered_witness :
  let p3 := PathOf (lit "C:/Windows/Fonts/malgun.ttf") in
  MalgunGothic ∈
    registered (snd (resolve_korean_font app_dir show_path
                       (disk_with [p3] [p3]) (fresh_process ∅))).
Proof.
  intros p3.
  destruct (returned_name_is_registered app_dir show_path (disk_with [p3] [p3])
              (fresh_process ∅)) as (_ & _ & H).
  apply (H MalgunGothic (Some (lit "C:/Windows/Fonts/malgun.ttf"))).
  vm_compute; reflexivity.
Defined.

(** X13. When the name of the first candidate on disk is registered
    already, the call returns it with the path that was found, without
    loading the file: it returns even if the file is no font, and it
    registers nothing, so the path returned need not be the file the
    name was registered with. *)
Theorem registered_name_skips_loading (base_dir : Path) (path_str : Path -> str)
    (fs : filesystem) (w : process)
    (pre : list (str * Path)) (name : str) (path : Path)
    (post : list (str * Path)) :
  candidates base_dir = pre ++ (name, path) :: post ->
  Forall (absent fs) pre ->
  path_exists fs path = true ->
  name ∈ registered w ->
  fst (resolve_korean_font base_dir path_str fs w) =
    Ok (Some name, Some (path_str path))
  /\ registered (snd (resolve_korean_font base_dir path_str fs w)) = registered w
  /\ registrations (snd (resolve_korean_font base_dir path_str fs w)) =
       registrations w.
Proof.
  intros Hc Hpre Hex Hin; unfold resolve_korean_font.
  destruct (resolve_from_registers path_str fs (registered w)
              (candidates base_dir) w)
    as [(E1 & E2 & _)|(n & p & _ & Hn & E1 & _)].
  - split; [|auto]. rewrite Hc.
    destruct (resolve_from_first path_str fs (registered w) pre name path post w
                Hpre Hex) as [_ E]; rewrite E.
    now rewrite decide_True by exact Hin.
  - exfalso. rewrite Hc in E1.
    destruct (resolve_from_first path_str fs (registered w) pre name path post w
                Hpre Hex) as [_ E]; rewrite E in E1.
    rewrite decide_True in E1 by exact Hin.
    injection E1 as <- _; contradiction.
Qed.

Lemma registered_name_skips_loading_witness :
  let p2 := PathDiv app_dir (lit "NanumGothic.ttf") in
  let w := registerFont NanumGothic (lit "/srv/app/fonts/NanumGothic.ttf")
             (fresh_process ∅) in
  ttf_loads (disk_with [p2] []) p2 = false
  /\ fst (resolve_korean_font app_dir show_path (disk_with [p2] []) w) =
       Ok (Some NanumGothic, Some (lit "/srv/app/NanumGothic.ttf"))
  /\ registrations (snd (resolve_korean_font app_dir show_path
                           (disk_with [p2] []) w)) =
       [(NanumGothic, lit "/srv/app/fonts/NanumGothic.ttf")].
Proof.
  intros p2 w.
  split; [reflexivity|].
  destruct (registered_name_skips_loading app_dir show_path (disk_with [p2] []) w
              [(NanumGothic,
                PathDiv (PathDiv app_dir (lit "fonts")) (lit "NanumGothic.ttf"))]
              NanumGothic p2
              (tl (tl (candidates app_dir))))
    as (E1 & _ & E3).
  - reflexivity.
  - repeat constructor.
  - reflexivity.
  - apply elem_of_union_l, elem_of_singleton_2; reflexivity.
  - split; [exact E1 | exact E3].
Defined.

Lemma registrations_from_candidates (base_dir : Path) (path_str : Path -> str)
    (disks : list filesystem) (w : process) :
  Forall (fun nf => fst nf = NanumGothic \/ fst nf = MalgunGothic)
         (registrations w) ->
  Forall (fun nf => fst nf = NanumGothic \/ fst nf = MalgunGothic)
         (registrations (resolve_many base_dir path_str disks w)).
Proof.
  revert w; induction disks as [|fs disks IH]; intros w H;
    cbn [resolve_many]; [exact H|].
  apply IH. unfold resolve_korean_font.
  destruct (resolve_from_registers path_str fs (registered w)
              (candidates base_dir) w)
    as [(_ & E & _)|(n & p & Hin & _ & _ & _ & E)]; rewrite E; [exact H|].
  constructor; [|exact H].
  exact (candidate_names base_dir n p Hin).
Qed.

(** X14. However often [resolve_korean_font] is called in one process
    and whatever is on disk at each call, [registerFont] is called at
    most twice in all: once for each of the two names at most. *)
Theorem at_most_two_registrations (base_dir : Path) (path_str : Path -> str)
    (disks : list filesystem) (names : gset str) :
  (length (registrations
             (resolve_many base_dir path_str disks (fresh_process names))) <= 2)%nat.
Proof.
  assert (H0 : well_registered names (fresh_process names)).
  { split; [constructor|]. split; [reflexivity|]. intros n []. }
  destruct (well_registered_many base_dir path_str disks names _ H0)
    as (Hnd & _ & _).
  pose proof (registrations_from_candidates base_dir path_str disks
                (fresh_process names) (List.Forall_nil _)) as Hc.
  rewrite <- (length_map fst).
  change 2%nat with (length [NanumGothic; MalgunGothic]).
  apply NoDup_incl_length; [exact Hnd|].
  intros n Hn. apply in_map_iff in Hn as (nf & <- & Hnf).
  rewrite List.Forall_forall in Hc.
  destruct (Hc nf Hnf) as [-> | ->]; cbn; auto.
Qed.

End FontsMore.


(** ** Further properties of build_pdf_bytes *)

Module ReportMore.
Import Report ReportFacts.

Lemma escape_cons (c : char) (s : str) :
  escape (c :: s) = escape_char c ++ escape s.
Proof. now rewrite !escape_flat_map. Qed.

Lemma escape_char_length (c : char) :
  length (escape_char c) =
  (1 + 4 * (if N.eq_dec c AMP then 1 else 0)
     + 3 * (if N.eq_dec c LT then 1 else 0)
     + 3 * (if N.eq_dec c GT then 1 else 0))%nat.
Proof.
  unfold escape_char.
  destruct (N.eqb_spec c AMP) as [->|Ea]; [reflexivity|].
  destruct (N.eqb_spec c GT) as [->|Eg]; [reflexivity|].
  destruct (N.eqb_spec c LT) as [->|El]; [reflexivity|].
  destruct (N.eq_dec c AMP); [contradiction|].
  destruct (N.eq_dec c LT); [contradiction|].
  destruct (N.eq_dec c GT); [contradiction|].
  reflexivity.
Qed.

(** X15. Escaping makes a field longer by four characters for each
    ampersand and by three for each angle bracket, and by nothing
    else. *)
Theorem escape_length (data : str) :
  length (escape data) =
  (length data + 4 * count_occ N.eq_dec data AMP
     + 3 * count_occ N.eq_dec data LT
     + 3 * count_occ N.eq_dec data GT)%nat.
Proof.
  induction data as [|c s IH]; [reflexivity|].
  rewrite escape_cons, length_app, IH, escape_char_length.
  cbn [count_occ length].
  destruct (N.eq_dec c AMP), (N.eq_dec c LT), (N.eq_dec c GT); lia.
Qed.

Lemma escape_plain (data : str) :
  ~ In AMP data -> ~ In LT data -> ~ In GT data -> escape data = data.
Proof.
  induction data as [|c s IH]; intros Ha Hl Hg; [reflexivity|].
  rewrite escape_cons, IH
    by (intros H; first [ apply Ha; now right
                        | apply Hl; now right
                        | apply Hg; now right ]).
  unfold escape_char.
  destruct (N.eqb_spec c AMP) as [->|_]; [exfalso; apply Ha; now left|].
  destruct (N.eqb_spec c GT) as [->|_]; [exfalso; apply Hg; now left|].
  destruct (N.eqb_spec c LT) as [->|_]; [exfalso; apply Hl; now left|].
  reflexivity.
Qed.

Lemma map_Chr_inj (a b : str) : List.map Chr a = List.map Chr b -> a = b.
Proof.
  revert b; induction a as [|x a IH]; intros [|y b] E; try discriminate;
    [reflexivity|].
  cbn in E; injection E as -> E; f_equal; auto.
Qed.

Lemma read_escape_all (data : str) :
  read_markup (escape data) = List.map Chr data.
Proof.
  unfold read_markup.
  rewrite <- (app_nil_r (escape data)), read_escape. now rewrite app_nil_r.
Qed.

Lemma escape_inj (a b : str) : escape a = escape b -> a = b.
Proof.
  intros E; apply map_Chr_inj. now rewrite <- !read_escape_all, E.
Qed.

(** X16. Two fields with the same escaped form are the same field, and
    two analysis texts with the same body markup are the same text:
    nothing of the input is lost or merged. *)
Theorem escape_injective (a b : str) :
  (escape a = escape b -> a = b)
  /\ (body_markup a = body_markup b -> a = b).
Proof.
  split; intros E.
  - now apply escape_inj.
  - assert (H : List.map body_token a = List.map body_token b)
      by now rewrite <- !read_body, E.
    clear E; revert b H; induction a as [|x a IH]; intros [|y b] H;
      try discriminate; [reflexivity|].
    cbn in H; injection H as Hxy H. f_equal; [|now apply IH].
    unfold body_token in Hxy.
    destruct (N.eqb_spec x NL) as [->|Ex], (N.eqb_spec y NL) as [->|Ey];
      try discriminate; [reflexivity | now injection Hxy].
Qed.

Lemma escape_injective_witness :
  escape (lit "a<b") = lit "a&lt;b" /\ lit "a<b" = lit "a<b".
Proof.
  split; [reflexivity|].
  apply (proj1 (escape_injective (lit "a<b") (lit "a<b"))).
  reflexivity.
Defined.

(** X17. [escape] leaves a field as it is exactly when the field has no
    ampersand and no angle bracket; and only then does escaping twice
    give the same as escaping once, so a field that is escaped already
    must not be passed in. *)
Theorem escape_fixed_iff (data : str) :
  (escape data = data <-> ~ In AMP data /\ ~ In LT data /\ ~ In GT data)
  /\ (escape (escape data) = escape data <->
      ~ In AMP data /\ ~ In LT data /\ ~ In GT data).
Proof.
  assert (H1 : escape data = data <->
               ~ In AMP data /\ ~ In LT data /\ ~ In GT data).
  { split.
    - intros E. pose proof (escape_length data) as L. rewrite E in L.
      repeat split; apply (count_occ_not_In N.eq_dec); lia.
    - intros (Ha & Hl & Hg); now apply escape_plain. }
  split; [exact H1|].
  rewrite <- H1; split; intros E.
  - now apply escape_inj.
  - now rewrite E.
Qed.

Lemma join_head_app (sep a x : str) (rest : list str) :
  join sep ((a ++ x) :: rest) = a ++ join sep (x :: rest).
Proof. destruct rest; cbn [join]; [reflexivity | now rewrite <- app_assoc]. Qed.

Lemma body_markup_cons (c : char) (s : str) :
  body_markup (c :: s) =
  (if (c =? NL)%N then BR else escape_char c) ++ body_markup s.
Proof. now rewrite !body_markup_flat_map. Qed.

(** X18. The body paragraph is the lines of the analysis text, each
    escaped, with one [<br/>] between two lines; the reader finds as
    many tags in it as the text has newlines. *)
Theorem body_is_escaped_lines (analysis_text : str) :
  body_markup analysis_text =
    join BR (List.map escape (split NL analysis_text))
  /\ length (List.filter (fun t => match t with Tag _ => true | Chr _ => false end)
               (read_markup (body_markup analysis_text))) =
     count_occ N.eq_dec analysis_text NL.
Proof.
  split.
  - induction analysis_text as [|c s IH]; [reflexivity|].
    rewrite body_markup_cons, IH; cbn [split].
    pose proof (AppFacts.split_nonempty NL s) as Hs.
    destruct (N.eqb_spec c NL) as [->|E].
    + destruct (split NL s) as [|l ls]; [contradiction|].
      cbn [List.map]. rewrite ExtractFacts.join_cons2. reflexivity.
    + destruct (split NL s) as [|l ls]; [contradiction|].
      cbn [List.map]. now rewrite escape_cons, join_head_app.
  - rewrite read_body.
    induction analysis_text as [|c s IH]; [reflexivity|].
    cbn [List.map List.filter count_occ]; unfold body_token at 1.
    destruct (N.eqb_spec c NL) as [->|E].
    + destruct (N.eq_dec NL NL); [|contradiction]. cbn [length]; now rewrite IH.
    + destruct (N.eq_dec c NL); [contradiction | exact IH].
Qed.

End ReportMore.


(** ** The session state and the download *)

Module SessionFacts.
Import Extract App Fonts Report Session FontsFacts.

Lemma keys_distinct :
  KEY_RESULT <> KEY_TIME /\ KEY_RESULT <> KEY_FILE /\ KEY_TIME <> KEY_FILE.
Proof. repeat split; vm_compute; discriminate. Qed.

(** What one press of the button does to the session. *)
Lemma analyze_clicked_cases (PdfReader : bytes -> result (list page))
    (generate_content : str -> result str) (c : click) (st : gmap str str) :
  let st' := analyze_clicked PdfReader generate_content c st in
  (st' = st
   /\ forall law r,
        fst (run_analysis PdfReader generate_content (law_pdfs c)) <>
        AnalysisResult law r)
  \/ (exists law r,
        fst (run_analysis PdfReader generate_content (law_pdfs c)) =
          AnalysisResult law r
        /\ st' !! KEY_RESULT = Some r
        /\ st' !! KEY_TIME = Some (now c)
        /\ st' !! KEY_FILE = Some (uploaded_name c)
        /\ forall k, k <> KEY_RESULT -> k <> KEY_TIME -> k <> KEY_FILE ->
                     st' !! k = st !! k).
Proof.
  destruct keys_distinct as (H1 & H2 & H3).
  unfold analyze_clicked.
  destruct (fst (run_analysis PdfReader generate_content (law_pdfs c)))
    as [e| |law r]; cbn zeta.
  - left; split; [reflexivity | discriminate].
  - left; split; [reflexivity | discriminate].
  - right; exists law, r. split; [reflexivity|].
    split; [now rewrite !lookup_insert_ne, lookup_insert_eq by auto|].
    split; [now rewrite lookup_insert_ne, lookup_insert_eq by auto|].
    split; [now rewrite lookup_insert_eq|].
    intros k K1 K2 K3. now rewrite !lookup_insert_ne by auto.
Qed.

Lemma complete_step (PdfReader : bytes -> result (list page))
    (generate_content : str -> result str) (c : click) (st : gmap str str) :
  complete st -> complete (analyze_clicked PdfReader generate_content c st).
Proof.
  intros H.
  destruct (analyze_clicked_cases PdfReader generate_content c st)
    as [[-> _]|(law & r & _ & _ & E2 & E3 & _)]; [exact H|].
  intros _; rewrite E2, E3; split; eexists; reflexivity.
Qed.

(** X19. Starting from the empty session, after any presses of the
    button the result, the time and the file name are in the session
    together or not at all, so the download never falls back on
    "unknown.png" or "-". A press either leaves the session as it is, or
    stores the answer of that run with the time and the file name of the
    same press, and touches no other entry. *)
Theorem session_entries_together (PdfReader : bytes -> result (list page))
    (generate_content : str -> result str) :
  (forall cs : list click,
      complete (clicks PdfReader generate_content cs ∅))
  /\ (forall (cs : list click) (r : str),
        clicks PdfReader generate_content cs ∅ !! KEY_RESULT = Some r ->
        exists file time,
          clicks PdfReader generate_content cs ∅ !! KEY_FILE = Some file
          /\ clicks PdfReader generate_content cs ∅ !! KEY_TIME = Some time
          /\ forall base_dir path_str fs w font_name font_path w',
               resolve_korean_font base_dir path_str fs w =
                 (Ok (font_name, font_path), w') ->
               download base_dir path_str fs w
                 (clicks PdfReader generate_content cs ∅) =
               (Some (Ok (report_document r file time font_name)), w'))
  /\ (forall (c : click) (st : gmap str str),
        let st' := analyze_clicked PdfReader generate_content c st in
        st' = st
        \/ (exists law r,
              fst (run_analysis PdfReader generate_content (law_pdfs c)) =
                AnalysisResult law r
              /\ st' !! KEY_RESULT = Some r
              /\ st' !! KEY_TIME = Some (now c)
              /\ st' !! KEY_FILE = Some (uploaded_name c)
              /\ forall k, k <> KEY_RESULT -> k <> KEY_TIME -> k <> KEY_FILE ->
                           st' !! k = st !! k)).
Proof.
  assert (Hall : forall cs st, complete st ->
                   complete (clicks PdfReader generate_content cs st)).
  { induction cs as [|c cs IH]; intros st H; cbn; [exact H|].
    now apply IH, complete_step. }
  assert (H0 : complete (∅ : gmap str str)).
  { intros [x Hx]; rewrite lookup_empty in Hx; discriminate. }
  split; [intros cs; now apply Hall|].
  split.
  - intros cs r Hr.
    destruct (Hall cs ∅ H0) as [[time Ht] [file Hf]];
      [rewrite Hr; eexists; reflexivity|].
    exists file, time; split; [exact Hf|]. split; [exact Ht|].
    intros base_dir path_str fs w font_name font_path w' E.
    unfold download; now rewrite Hr, E, Hf, Ht.
  - intros c st st'.
    destruct (analyze_clicked_cases PdfReader generate_content c st)
      as [[E _]|H]; [now left | now right].
Qed.

Lemma session_entries_together_witness :
  let c := {| law_pdfs := [lit "Rule 1"]; now := lit "2024-01-01 10:00:00";
              uploaded_name := lit "plan.png" |} in
  exists file time,
    clicks pages_reader echo_service [c] ∅ !! KEY_FILE = Some file
    /\ clicks pages_reader echo_service [c] ∅ !! KEY_TIME = Some time.
Proof.
  intros c.
  destruct (session_entries_together pages_reader echo_service) as (_ & H & _).
  destruct (H [c] (lit "Rule 1")) as (file & time & Hf & Ht & _).
  - vm_compute; reflexivity.
  - exists file, time; split; assumption.
Defined.

(** X20. A press of the button with a document that cannot be read
    leaves the session as it is, and the script goes on to the
    download: a result of an earlier run is offered again. A press
    where every document is read and none yields text ends the script
    before the download: nothing is offered, no font is resolved, and
    the session is as before. *)
Theorem run_script_after_failure (PdfReader : bytes -> result (list page))
    (generate_content : str -> result str)
    (base_dir : Path) (path_str : Path -> str)
    (c : click) (fs : filesystem) (w : process) (st : gmap str str) :
  ((exists pre bad post e,
       law_pdfs c = pre ++ bad :: post
       /\ Forall (fun pdf => exists pages, PdfReader pdf = Ok pages) pre
       /\ PdfReader bad = Raise e) ->
   run_script PdfReader generate_content base_dir path_str (Some c) fs w st =
     (st, download base_dir path_str fs w st))
  /\ (Forall (fun pdf => extract_pdf_text PdfReader pdf default_max_chars = Ok [])
             (law_pdfs c) ->
      run_script PdfReader generate_content base_dir path_str (Some c) fs w st =
        (st, (None, w))).
Proof.
  split.
  - intros (pre & bad & post & e & Hc & Hpre & Hbad).
    unfold run_script, analyze_clicked, run_analysis.
    rewrite Hc, (AppFacts.gather_stops PdfReader pre bad post e [] Hpre Hbad).
    reflexivity.
  - intros Hall.
    unfold run_script, run_analysis.
    assert (H2 : Forall2
                   (fun pdf t =>
                      extract_pdf_text PdfReader pdf default_max_chars = Ok t)
                   (law_pdfs c) (List.map (fun _ => []) (law_pdfs c))).
    { induction Hall; constructor; auto. }
    rewrite (AppFacts.gather_all_read PdfReader (law_pdfs c) _ [] H2).
    replace (List.filter truthy (List.map (fun _ : bytes => []) (law_pdfs c)))
      with (@nil str); [reflexivity|].
    clear; induction (law_pdfs c); simpl; auto.
Qed.

Lemma run_script_after_failure_witness :
  let c := {| law_pdfs := [lit "Rule 1"; []]; now := lit "2024-01-01 10:00:00";
              uploaded_name := lit "plan.png" |} in
  let st : gmap str str := {[ KEY_RESULT := lit "earlier" ]} in
  run_script pages_reader echo_service app_dir show_path (Some c)
    (disk_with [] []) (fresh_process ∅) st =
  (st, download app_dir show_path (disk_with [] []) (fresh_process ∅) st).
Proof.
  intros c st.
  apply (run_script_after_failure pages_reader echo_service app_dir show_path c).
  exists [lit "Rule 1"], [], [], PdfReadError.
  split; [reflexivity|]. split; [|reflexivity].
  repeat constructor. eexists; reflexivity.
Defined.

(** X21. The download sets the document in a font the engine knows.
    With a result in the session, either [resolve_korean_font] raises
    and no document is built, or the document is built with one font
    name in all its paragraphs: "Helvetica" when no candidate is on
    disk, otherwise "NanumGothic" or "MalgunGothic", which is then in
    the registry. Without a result nothing is resolved or built. *)
Theorem download_font (base_dir : Path) (path_str : Path -> str)
    (fs : filesystem) (w : process) (st : gmap str str) :
  match st !! KEY_RESULT with
  | None => download base_dir path_str fs w st = (None, w)
  | Some analysis_text =>
      exists out w',
        download base_dir path_str fs w st = (Some out, w')
        /\ w' = snd (resolve_korean_font base_dir path_str fs w)
        /\ match out with
           | Raise e => e = TTFError
           | Ok doc =>
               exists font,
                 paragraph_fonts (story doc) = [font; font; font; font; font]
                 /\ List.nth 4 (paragraph_texts (story doc)) [] =
                      body_markup analysis_text
                 /\ ((font = Helvetica /\ Forall (absent fs) (candidates base_dir))
                     \/ ((font = NanumGothic \/ font = MalgunGothic)
                         /\ font ∈ registered w'))
           end
  end.
Proof.
  unfold download.
  destruct (st !! KEY_RESULT) as [analysis_text|]; [|reflexivity].
  pose proof (resolve_from_shape path_str fs (registered w)
                (candidates base_dir) w) as Hs.
  pose proof (FontsMore.resolve_from_registers path_str fs (registered w)
                (candidates base_dir) w) as Hr.
  fold (resolve_korean_font base_dir path_str fs w) in Hs, Hr.
  destruct (resolve_korean_font base_dir path_str fs w) as [[[fn fp]|e] w'];
    cbn [fst snd] in *; eexists _, w'; (split; [reflexivity|]);
    (split; [reflexivity|]).
  - destruct fn as [name|], fp as [file|]; try contradiction.
    + destruct Hs as (p & Hin & _).
      pose proof (FontsMore.candidate_names base_dir name p Hin) as Hname.
      exists name. split; [destruct Hname as [-> | ->]; reflexivity|].
      split; [reflexivity|]. right; split; [exact Hname|].
      destruct Hr as [(E1 & _ & E3)|(n & q & _ & _ & E1 & E2 & _)].
      * rewrite E1; exact (E3 name (Some file) eq_refl).
      * injection E1 as -> _. rewrite E2.
        apply elem_of_union_l, elem_of_singleton_2; reflexivity.
    + exists Helvetica. split; [reflexivity|]. split; [reflexivity|].
      left; split; [reflexivity | exact Hs].
  - exact (proj1 Hs).
Qed.

End SessionFacts.


(** ** show_str_pair.py *)

Module StrPairFacts.
Import Fonts PyMore StrPair.

Lemma rfind_from_absent (d : char) (s : str) (i best : Z) :
  ~ In d s -> rfind_from d s i best = best.
Proof.
  revert i best; induction s as [|c s IH]; intros i best H; [reflexivity|].
  cbn [rfind_from].
  destruct (N.eqb_spec c d) as [->|_]; [exfalso; apply H; now left|].
  apply IH; intros Hin; apply H; now right.
Qed.

Lemma rfind_from_last (d : char) (a b : str) (i best : Z) :
  ~ In d b ->
  rfind_from d (a ++ d :: b) i best = i + Z.of_nat (length a).
Proof.
  intros Hb; revert i best; induction a as [|c a IH]; intros i best.
  - cbn [app rfind_from length]. rewrite N.eqb_refl, rfind_from_absent by exact Hb.
    lia.
  - cbn [app rfind_from length]. rewrite IH. lia.
Qed.

(** X22. The script looks at the first image that the search yields
    and at no other. For an image [base.ext], with [base] and [ext] not
    empty and no dot in [ext], the JSON file it wants is [base.json] in
    the directory of the labels, whatever dots [base] has: with that file
    on disk the pair is found, without it the script fails even if a
    later image has its JSON file. With no image at all it fails as
    well. *)
Theorem locate_first_image (base_dir : Path) (base ext : str)
    (rest : list str) (path_exists : Path -> bool) :
  base <> [] -> ext <> [] -> ~ In DOT ext ->
  let name := base ++ DOT :: ext in
  let json_path := PathDiv (json_dir base_dir) (base ++ lit ".json") in
  stem name = base
  /\ locate base_dir (name :: rest) path_exists =
       (if path_exists json_path
        then Pair (PathDiv (img_dir base_dir) name) json_path
        else NoJsonFound json_path)
  /\ locate base_dir [] path_exists = NoPngFound (img_dir base_dir).
Proof.
  intros Hb He Hdot name json_path.
  assert (Hstem : stem name = base).
  { unfold stem, rfind, name.
    rewrite rfind_from_last by exact Hdot.
    rewrite length_app; cbn [length].
    destruct base as [|b0 base]; [contradiction|].
    destruct ext as [|e0 ext]; [contradiction|].
    cbn [length].
    replace ((0 <? 0 + Z.of_nat (S (length base)))
             && (0 + Z.of_nat (S (length base))
                 <? Z.of_nat (S (length base) + S (S (length ext))) - 1))
      with true by (symmetry; apply andb_true_intro; split; apply Z.ltb_lt; lia).
    replace (Z.to_nat (0 + Z.of_nat (S (length base))))
      with (length (b0 :: base) + 0)%nat by (cbn [length]; lia).
    now rewrite firstn_app_2, firstn_O, app_nil_r. }
  split; [exact Hstem|]. split; [|reflexivity].
  unfold locate; fold name; rewrite Hstem. reflexivity.
Qed.

Lemma locate_first_image_witness :
  let present := PathDiv (json_dir app_dir) (lit "b.json") in
  locate app_dir [lit "a.v2.PNG"; lit "b.PNG"]
    (fun p => bool_decide (p = present)) =
  NoJsonFound (PathDiv (json_dir app_dir) (lit "a.v2.json")).
Proof.
  intros present.
  destruct (locate_first_image app_dir (lit "a.v2") (lit "PNG") [lit "b.PNG"]
              (fun p => bool_decide (p = present))) as (_ & E & _).
  - discriminate.
  - discriminate.
  - vm_compute; intuition discriminate.
  - exact E.
Defined.

End StrPairFacts.
